(** * AicClient: the camera-service client of device/goldfish (camera/AicClient.cpp)

    A shallow embedding of [AicClient] (connection life cycle, the
    length-prefixed reply framing of [receiveMessage]) and of
    [CameraAicClient] (the [infos], [start] and [frame] queries), with the
    properties of the transport and of the reply decoding proved on it.

    The process state the code acts on (errno, the descriptor table, the
    bytes the peer delivers, the malloc heap) is an explicit [World] that
    every operation threads through. *)

From Stdlib Require Import ZArith List Ascii String Lia Bool.
From stdpp Require Import base gmap sets list.
Import ListNotations.

Local Open Scope Z_scope.

(** ** C integer types *)

Module CInt.

(** The two data models Android builds this file for: [int] is 32 bits in
    both, [long] and [size_t] are 32 bits (ILP32) or 64 bits (LP64). *)
Inductive data_model := ILP32 | LP64.

Definition int_bits : Z := 32.

Definition long_bits (dm : data_model) : Z :=
  match dm with ILP32 => 32 | LP64 => 64 end.

Definition size_bits (dm : data_model) : Z := long_bits dm.

(** Conversion to an unsigned type of [bits] bits. *)
Definition wrap_unsigned (bits z : Z) : Z := z mod 2 ^ bits.

(** Conversion to a signed (two's complement) type of [bits] bits. *)
Definition wrap_signed (bits z : Z) : Z :=
  (z + 2 ^ (bits - 1)) mod 2 ^ bits - 2 ^ (bits - 1).

Definition to_int (z : Z) : Z := wrap_signed int_bits z.
Definition to_size (dm : data_model) (z : Z) : Z := wrap_unsigned (size_bits dm) z.

Definition INT_MAX : Z := 2 ^ (int_bits - 1) - 1.
Definition LONG_MAX (dm : data_model) : Z := 2 ^ (long_bits dm - 1) - 1.
Definition LONG_MIN (dm : data_model) : Z := - 2 ^ (long_bits dm - 1).
Definition SIZE_MAX (dm : data_model) : Z := 2 ^ size_bits dm - 1.
Definition SSIZE_MAX (dm : data_model) : Z := LONG_MAX dm.

(** [size_t] subtraction and addition, with their wrap-around. *)
Definition size_sub (dm : data_model) (a b : Z) : Z := to_size dm (a - b).
Definition size_add (dm : data_model) (a b : Z) : Z := to_size dm (a + b).

End CInt.
Export CInt.

(** ** Status codes (utils/Errors.h, errno.h) *)

Definition status_t := Z.

Definition NO_ERROR : status_t := 0.
Definition EIO : Z := 5.
Definition EBADF : Z := 9.
Definition EFAULT : Z := 14.
Definition ENOMEM : Z := 12.
Definition EINVAL : Z := 22.
Definition ERANGE : Z := 34.

(** ** The process state *)

Definition char := ascii.
Definition ptr := Z.
Definition NULL : ptr := 0.

(** What one [read] call on the socket meets: some bytes that have arrived
    (at least one), or a failure with its errno.  The end of the list is the
    end of the stream: [read] returns 0. *)
Inductive rd_event :=
| RdData (b : char) (bs : list char)
| RdError (e : Z).

Definition stream := list rd_event.

(** A byte of a malloc block: [None] until something is stored there. *)
Abbreviation mem_byte := (option char).

Inductive sockopt :=
| SO_RCVTIMEO (fd : Z) (tv_sec tv_usec : Z)
| TCP_NODELAY (fd : Z) (flag : Z).

Record World := mkWorld {
  w_errno : Z;                       (* errno *)
  w_open : gset Z;                   (* descriptors open in the process *)
  w_opts : list sockopt;             (* socket options set so far *)
  w_incoming : stream;               (* what the service sends on the client's socket *)
  w_heap : gmap Z (list (option char)); (* live malloc blocks, by address *)
  w_malloc_ok : Z -> bool            (* whether a request of that size can be served *)
}.

Definition set_errno (e : Z) (w : World) : World :=
  mkWorld e (w_open w) (w_opts w) (w_incoming w) (w_heap w) (w_malloc_ok w).

Definition set_open (o : gset Z) (w : World) : World :=
  mkWorld (w_errno w) o (w_opts w) (w_incoming w) (w_heap w) (w_malloc_ok w).

Definition add_opt (o : sockopt) (w : World) : World :=
  mkWorld (w_errno w) (w_open w) (w_opts w ++ [o]) (w_incoming w) (w_heap w) (w_malloc_ok w).

Definition set_incoming (s : stream) (w : World) : World :=
  mkWorld (w_errno w) (w_open w) (w_opts w) s (w_heap w) (w_malloc_ok w).

Definition set_heap (h : gmap Z (list (option char))) (w : World) : World :=
  mkWorld (w_errno w) (w_open w) (w_opts w) (w_incoming w) h (w_malloc_ok w).

(** The expression [errno ? errno : dflt] of the error returns. *)
Definition errno_or (w : World) (dflt : Z) : status_t :=
  if w_errno w =? 0 then dflt else w_errno w.

(** ** System calls *)

(** Outcome of the calls whose result the network decides: the value
    [socket] and [connect] return, and the errno each leaves on failure. *)
Record NetEnv := mkNetEnv {
  socket_ret : Z;
  socket_errno : Z;
  connect_ret : Z;
  connect_errno : Z
}.

Definition sys_socket (env : NetEnv) (w : World) : Z * World :=
  if socket_ret env <? 0 then (socket_ret env, set_errno (socket_errno env) w)
  else (socket_ret env, set_open ({[socket_ret env]} ∪ w_open w) w).

Definition sys_connect (env : NetEnv) (fd port : Z) (w : World) : Z * World :=
  if connect_ret env <? 0 then (connect_ret env, set_errno (connect_errno env) w)
  else (connect_ret env, w).

Definition sys_close (fd : Z) (w : World) : World :=
  if decide (fd ∈ w_open w) then set_open (w_open w ∖ {[fd]}) w
  else set_errno EBADF w.

Definition sys_setsockopt (o : sockopt) (w : World) : World := add_opt o w.

(** ** AicClient: connection life cycle *)

Record AicClient := mkAicClient { mSocketFD : Z }.

(** [AicClient::AicClient()] *)
Definition AicClient_new : AicClient := mkAicClient (-1).

(** [AicClient::connectClient] *)
Definition connectClient (env : NetEnv) (local_srv_port : Z)
    (c : AicClient) (w : World) : status_t * AicClient * World :=
  (* Make sure that client is not connected already. *)
  if mSocketFD c >=? 0 then (EINVAL, c, w)
  else
    let '(fd, w1) := sys_socket env w in
    let c1 := mkAicClient fd in
    if fd <? 0 then (errno_or w1 EINVAL, c1, w1)
    else
      let '(r, w2) := sys_connect env fd local_srv_port w1 in
      if r <? 0 then (errno_or w2 EINVAL, c1, w2)
      else
        let w3 := sys_setsockopt (SO_RCVTIMEO fd 10 0) w2 in
        let w4 := sys_setsockopt (TCP_NODELAY fd 1) w3 in
        (NO_ERROR, c1, w4).

(** [AicClient::disconnectClient] *)
Definition disconnectClient (c : AicClient) (w : World) : AicClient * World :=
  if mSocketFD c >=? 0 then (mkAicClient (-1), sys_close (mSocketFD c) w)
  else (c, w).

(** ** C library: ctype, strtol, malloc, free, read *)

Definition code (c : char) : Z := Z.of_N (N_of_ascii c).

Definition isspace (c : char) : bool :=
  (code c =? 32) || ((9 <=? code c) && (code c <=? 13)).
Definition isdigit (c : char) : bool := (48 <=? code c) && (code c <=? 57).
Definition isupper (c : char) : bool := (65 <=? code c) && (code c <=? 90).
Definition islower (c : char) : bool := (97 <=? code c) && (code c <=? 122).
Definition isalpha (c : char) : bool := isupper c || islower c.

(** The digit a character stands for in [strtol]'s loop, before the test
    against the base; [None] stops the conversion. *)
Definition digit_of (c : char) : option Z :=
  if isdigit c then Some (code c - 48)
  else if isalpha c then Some (code c - (if isupper c then 65 - 10 else 97 - 10))
  else None.

Fixpoint skip_space (s : list char) : list char :=
  match s with
  | c :: s' => if isspace c then skip_space s' else s
  | [] => []
  end.

(** The conversion loop of [strtol]: [any] becomes -1 once the value has
    left the range of [long]; the flag returned says whether errno was set
    to ERANGE. *)
Fixpoint strtol_loop (dm : data_model) (neg : bool) (base cutoff cutlim : Z)
    (s : list char) (acc any : Z) (erange : bool) : Z * bool :=
  match s with
  | [] => (acc, erange)
  | c :: s' =>
    match digit_of c with
    | None => (acc, erange)
    | Some d =>
      if d >=? base then (acc, erange)
      else if any <? 0 then strtol_loop dm neg base cutoff cutlim s' acc any erange
      else if neg then
        if (acc <? cutoff) || ((acc =? cutoff) && (d >? cutlim))
        then strtol_loop dm neg base cutoff cutlim s' (LONG_MIN dm) (-1) true
        else strtol_loop dm neg base cutoff cutlim s' (acc * base - d) 1 erange
      else
        if (acc >? cutoff) || ((acc =? cutoff) && (d >? cutlim))
        then strtol_loop dm neg base cutoff cutlim s' (LONG_MAX dm) (-1) true
        else strtol_loop dm neg base cutoff cutlim s' (acc * base + d) 1 erange
    end
  end.

(** [strtol(nptr, NULL, base)] of the C library, as bionic implements it:
    leading white space, an optional sign, an optional [0x] when the base is
    16, then digits for as long as there are any.  The text ends at the end
    of the list (the terminating zero of the C string).  Returns the value
    and whether errno was set to ERANGE; a text without digits gives 0 and
    leaves errno alone. *)
Definition strtol (dm : data_model) (nptr : list char) (base : Z) : Z * bool :=
  let s0 := skip_space nptr in
  let '(neg, s1) :=
    match s0 with
    | c :: s' =>
      if code c =? 45 then (true, s')
      else if code c =? 43 then (false, s')
      else (false, s0)
    | [] => (false, s0)
    end in
  let '(base1, s2) :=
    match s1 with
    | c :: x :: s' =>
      if ((base =? 0) || (base =? 16)) && (code c =? 48)
         && ((code x =? 120) || (code x =? 88))
      then (16, s')
      else (base, s1)
    | _ => (base, s1)
    end in
  let base2 :=
    if base1 =? 0 then
      match s2 with
      | c :: _ => if code c =? 48 then 8 else 10
      | [] => 10
      end
    else base1 in
  let cutoff0 := if neg then LONG_MIN dm else LONG_MAX dm in
  let cutlim0 := Z.rem cutoff0 base2 in
  let cutoff1 := Z.quot cutoff0 base2 in
  let '(cutoff, cutlim) :=
    if neg then
      if cutlim0 >? 0 then (cutoff1 + 1, - (cutlim0 - base2))
      else (cutoff1, - cutlim0)
    else (cutoff1, cutlim0) in
  strtol_loop dm neg base2 cutoff cutlim s2 0 0 false.

(** [malloc]: a block of [n] bytes at an address that is neither NULL nor
    that of a live block, its bytes not yet stored to; NULL when the request
    cannot be served. *)
Definition sys_malloc (n : Z) (w : World) : ptr * World :=
  if w_malloc_ok w n then
    let p := fresh ({[NULL]} ∪ dom (w_heap w)) in
    (p, set_heap (<[p := replicate (Z.to_nat n) None]> (w_heap w)) w)
  else (NULL, set_errno ENOMEM w).

(** [free]: the block is live no more; [free(NULL)] does nothing. *)
Definition sys_free (p : ptr) (w : World) : World :=
  set_heap (delete p (w_heap w)) w.

(** Storing [bs] at offset [off] of a block. *)
Definition write_at (off : nat) (bs : list char) (blk : list mem_byte) : list mem_byte :=
  take off blk ++ (Some <$> bs) ++ drop (off + length bs) blk.

Definition mem_write (p : ptr) (off : Z) (bs : list char) (w : World) : World :=
  set_heap (alter (write_at (Z.to_nat off) bs) p (w_heap w)) w.

(** [read(mSocketFD, buf, count)] on the client's socket: the number
    returned and the bytes placed in [buf].  With a count above SSIZE_MAX
    the buffer cannot lie in the address space and the call fails with
    EFAULT (Linux tests this first); otherwise the call takes what the next
    event offers, at most [count] bytes, and leaves the rest of it for the
    next call. *)
Definition sys_read (dm : data_model) (count : Z) (w : World) : Z * list char * World :=
  if count >? SSIZE_MAX dm then (-1, [], set_errno EFAULT w)
  else
    match w_incoming w with
    | [] => (0, [], w)
    | RdError e :: s => (-1, [], set_errno e (set_incoming s w))
    | RdData b bs :: s =>
      let got := take (Z.to_nat count) (b :: bs) in
      let rest :=
        match drop (Z.to_nat count) (b :: bs) with
        | [] => s
        | b' :: bs' => RdData b' bs' :: s
        end in
      (Z.of_nat (length got), got, set_incoming rest w)
    end.

(** ** AicClient::receiveMessage *)

(** What the call leaves in its out-parameters, and its status. *)
Record RecvResult := mkRecv {
  rr_status : status_t;
  rr_data : ptr;           (* *data *)
  rr_data_size : Z         (* *data_size *)
}.

(** The loop [while ((rd_res = read(mSocketFD, ptr, payload_left)) > 0)] and
    the code after it.  [ptr_off] is [ptr - *data].  [fuel] bounds the number
    of iterations; [None] means it ran out. *)
Fixpoint recv_loop (dm : data_model) (fuel : nat) (data : ptr) (payload_size : Z)
    (payload_read payload_left ptr_off : Z) (w : World) : option (RecvResult * World) :=
  match fuel with
  | O => None
  | S fuel' =>
    let '(r, got, w1) := sys_read dm (to_size dm payload_left) w in
    let w2 := mem_write data ptr_off got w1 in
    let rd_res := to_int r in
    if rd_res >? 0 then
      let payload_left' := to_int (payload_left - rd_res) in
      let payload_read' := to_int (payload_read + rd_res) in
      let ptr_off' := ptr_off + rd_res in
      if to_size dm payload_read' =? payload_size then
        Some (mkRecv NO_ERROR data payload_size, w2)
      else recv_loop dm fuel' data payload_size payload_read' payload_left' ptr_off' w2
    else if negb (to_size dm payload_read =? payload_size) then
      let w3 := sys_free data w2 in
      Some (mkRecv (errno_or w3 EIO) NULL 0, w3)
    else Some (mkRecv NO_ERROR data 0, w2)
  end.

(** [AicClient::receiveMessage]: [*data] and [*data_size] are cleared first,
    so every early return leaves NULL and 0 there. *)
Definition receiveMessage (dm : data_model) (c : AicClient) (w : World)
    : option (RecvResult * World) :=
  if mSocketFD c <? 0 then Some (mkRecv EINVAL NULL 0, w)
  else
    let '(r, payload_size_str, w1) := sys_read dm 8 w in
    let rd_res := to_int r in
    if negb (rd_res =? 8) then Some (mkRecv (errno_or w1 EIO) NULL 0, w1)
    else
      (* Convert payload size. *)
      let w2 := set_errno 0 w1 in
      let '(v, erange) := strtol dm payload_size_str 16 in
      let w3 := if erange then set_errno ERANGE w2 else w2 in
      let payload_size := to_size dm v in
      if negb (w_errno w3 =? 0) then Some (mkRecv EIO NULL 0, w3)
      else
        (* Allocate payload data buffer, and read the payload there. *)
        let '(data, w4) := sys_malloc payload_size w3 in
        if data =? NULL then Some (mkRecv ENOMEM NULL 0, w4)
        else
          let payload_left := to_int payload_size in
          recv_loop dm (S (Z.to_nat payload_left)) data payload_size 0 payload_left 0 w4.

(** ** C library: snprintf *)

Definition lit (s : string) : list char := list_ascii_of_string s.

Definition digit_char (d : Z) : char := ascii_of_N (Z.to_N (48 + d)).

(** Decimal digits of a natural number, most significant first; the number
    of bits of [n] bounds the number of its decimal digits. *)
Fixpoint utoa_aux (fuel : nat) (n : Z) (acc : list char) : list char :=
  match fuel with
  | O => acc
  | S fuel' =>
    let acc' := digit_char (n mod 10) :: acc in
    if n / 10 =? 0 then acc' else utoa_aux fuel' (n / 10) acc'
  end.

Definition utoa (n : Z) : list char := utoa_aux (S (Z.to_nat (Z.log2 n))) n [].

(** What [%d] prints for an [int]. *)
Definition itoa (n : Z) : list char :=
  if n <? 0 then lit "-" ++ utoa (- n) else utoa n.

(** The value a decimal numeral denotes. *)
Definition dec_value (l : list char) : Z :=
  fold_left (fun a c => a * 10 + (code c - 48)) l 0.

(** The characters of a C string: those before the first zero. *)
Fixpoint cstr (s : list char) : list char :=
  match s with
  | [] => []
  | c :: s' => if code c =? 0 then [] else c :: cstr s'
  end.

(** A variadic argument: a string, or a 32-bit word ([int] and [uint32_t]
    are passed alike). *)
Inductive fmt_arg :=
| ArgStr (s : list char)
| ArgInt (v : Z).

(** The text a format produces, for the directives this file uses: [%s]
    and [%d].  [%d] reads its word as an [int], whatever the type of the
    argument was.  [None]: a directive without a fitting argument. *)
Fixpoint vformat (fmt : list char) (args : list fmt_arg) : option (list char) :=
  match fmt with
  | [] => Some []
  | c :: fmt' =>
    if code c =? 37 then
      match fmt' with
      | d :: fmt'' =>
        if code d =? 115 then
          match args with
          | ArgStr s :: args' => app (cstr s) <$> vformat fmt'' args'
          | _ => None
          end
        else if code d =? 100 then
          match args with
          | ArgInt v :: args' => app (itoa (to_int v)) <$> vformat fmt'' args'
          | _ => None
          end
        else None
      | [] => None
      end
    else cons c <$> vformat fmt' args
  end.

(** [snprintf(buf, size, fmt, ...)] with [size > 0]: the C string left in
    [buf], cut to [size - 1] characters (the terminating zero follows). *)
Definition snprintf (size : Z) (fmt : list char) (args : list fmt_arg) : option (list char) :=
  take (Z.to_nat (size - 1)) <$> vformat fmt args.

(** ** CameraAicClient *)

Definition mQueryConnect : list char := lit "connect".
Definition mQueryDisconnect : list char := lit "disconnect".
Definition mQueryInfo : list char := lit "infos".
Definition mQueryStart : list char := lit "start".
Definition mQueryStop : list char := lit "stop".
Definition mQueryFrame : list char := lit "frame".

(** [QemuQuery] is declared in QemuClient.h, which is not among these
    sources.  The camera queries read a query only after [doQuery] has run
    on it; what they read is taken as given: the value [doQuery] returned,
    the two accessors, and the reply data with its size. *)
Record QemuQuery := mkQuery {
  doQuery_ret : status_t;           (* doQuery(&query) *)
  isQuerySucceeded : bool;          (* query.isQuerySucceeded() *)
  getCompletionStatus : status_t;   (* query.getCompletionStatus() *)
  mReplyData : list char;           (* the bytes at query.mReplyData; none when it is NULL *)
  mReplyDataSize : Z                (* query.mReplyDataSize, a size_t *)
}.

(** The reply data is [mReplyDataSize] bytes long. *)
Definition reply_wf (dm : data_model) (q : QemuQuery) : Prop :=
  mReplyDataSize q = Z.of_nat (length (mReplyData q)) /\ mReplyDataSize q <= SIZE_MAX dm.

(** A call either returns, or runs into undefined behaviour: a store
    through a null pointer, a format directive without its argument, or a
    read past the end of a block. *)
Inductive undefined := NullStore | BadFormat | OverRead.

(** Whether a zero byte is among the characters. *)
Definition has_zero (s : list char) : bool := existsb (fun c => code c =? 0) s.

Inductive outcome (A : Type) :=
| Returned (a : A)
| Undefined (why : undefined).
Arguments Returned {A} a.
Arguments Undefined {A} why.

(** [CameraAicClient::queryInfo].  [p_info_string] is [None] for a null
    pointer and [Some v] for the address of a [char*] that holds [v]; the
    result gives the status, that [char*] afterwards, and the world.  The
    [%s] of the [snprintf] has no precision: it reads the reply data up to a
    zero byte, and past the end of the reply when its [mReplyDataSize]
    bytes hold none. *)
Definition queryInfo (dm : data_model) (p_info_string : option ptr) (q : QemuQuery)
    (w : World) : outcome (status_t * option ptr * World) :=
  (* if (!p_info_string) ALOGE("invalid parameter");  -- nothing else *)
  if negb (doQuery_ret q =? 0) || negb (isQuerySucceeded q) then
    Returned (getCompletionStatus q, p_info_string, w)
  else if mReplyDataSize q =? 0 then
    (* Make sure there is info returned. *)
    Returned (EINVAL, p_info_string, w)
  else
    let size := size_add dm (mReplyDataSize q) 1 in
    let '(p, w1) := sys_malloc size w in
    match p_info_string with
    | None => Undefined NullStore
    | Some _ =>
      if p =? NULL then Returned (ENOMEM, Some p, w1)
      else if negb (has_zero (take (Z.to_nat (mReplyDataSize q)) (mReplyData q))) then
        Undefined OverRead
      else
        match snprintf size (lit "%s") [ArgStr (mReplyData q)] with
        | Some s => Returned (NO_ERROR, Some p, mem_write p 0 (s ++ [ascii_of_N 0]) w1)
        | None => Undefined BadFormat
        end
    end.

(** [query_str] of [CameraAicClient::queryStart], as [snprintf] leaves it.
    [pixel_format] is a [uint32_t], [width] and [height] are [int]s. *)
Definition queryStart_query_str (pixel_format width height : Z) : option (list char) :=
  snprintf 256 (lit "%s dim=%dx%d pix=%d")
    [ArgStr mQueryStart; ArgInt width; ArgInt height; ArgInt pixel_format].

(** The length [queryFrame] asks the service for, for one of its two
    buffers: [(frame && frame_size) ? frame_size : 0]. *)
Definition requested_len (frame : option (list char)) (frame_size : Z) : Z :=
  match frame with
  | Some _ => if negb (frame_size =? 0) then frame_size else 0
  | None => 0
  end.

(** [memcpy(dst, src, n)] into a buffer of at least [n] bytes. *)
Definition memcpy (dst src : list char) (n : Z) : list char :=
  take (Z.to_nat n) src ++ drop (Z.to_nat n) dst.

(** What [queryFrame] leaves: its status, the caller's two buffers, and the
    operands [(a, b)] of every [size_t] subtraction [a - b] it evaluated, in
    order. *)
Record FrameResult := mkFrame {
  fr_status : status_t;
  fr_vframe : option (list char);
  fr_pframe : option (list char);
  fr_subs : list (Z * Z)
}.

(** [CameraAicClient::queryFrame], from the completed query on.  A buffer is
    [None] for a null pointer.  (The query string, with its four floats, is
    built and sent before; it has no part in the copy.) *)
Definition queryFrame (dm : data_model) (vframe pframe : option (list char))
    (vframe_size pframe_size : Z) (q : QemuQuery) : FrameResult :=
  let res := getCompletionStatus q in
  if negb (res =? NO_ERROR) then mkFrame res vframe pframe []
  else
    (* Copy requested frames. *)
    let cur_offset := 0 in
    let frame := mReplyData q in
    (* Video frame is always first. *)
    let video :=
      match vframe with
      | Some vbuf =>
        if negb (vframe_size =? 0) then
          (* Make sure that video frame is in. *)
          if size_sub dm (mReplyDataSize q) cur_offset >=? vframe_size then
            inl (Some (memcpy vbuf frame vframe_size),
                 size_add dm cur_offset vframe_size,
                 [(mReplyDataSize q, cur_offset)])
          else
            inr [(mReplyDataSize q, cur_offset); (mReplyDataSize q, cur_offset)]
        else inl (vframe, cur_offset, [])
      | None => inl (vframe, cur_offset, [])
      end in
    match video with
    | inr subs => mkFrame EINVAL vframe pframe subs
    | inl (vframe1, cur_offset1, subs1) =>
      match pframe with
      | Some pbuf =>
        if negb (pframe_size =? 0) then
          (* Make sure that preview frame is in. *)
          if size_sub dm (mReplyDataSize q) cur_offset1 >=? pframe_size then
            mkFrame NO_ERROR vframe1
              (Some (memcpy pbuf (drop (Z.to_nat cur_offset1) frame) pframe_size))
              (subs1 ++ [(mReplyDataSize q, cur_offset1)])
          else
            mkFrame EINVAL vframe1 pframe
              (subs1 ++ [(mReplyDataSize q, cur_offset1); (mReplyDataSize q, cur_offset1)])
        else mkFrame NO_ERROR vframe1 pframe subs1
      | None => mkFrame NO_ERROR vframe1 pframe subs1
      end
    end.

(** ** Vocabulary of the statements *)

(** The bytes a stream carries, in order. *)
Fixpoint stream_data (s : stream) : list char :=
  match s with
  | [] => []
  | RdData b bs :: s' => b :: bs ++ stream_data s'
  | RdError _ :: s' => stream_data s'
  end.

(** No [read] on the stream fails: it only delivers bytes, then ends. *)
Fixpoint data_only (s : stream) : bool :=
  match s with
  | [] => true
  | RdData _ _ :: s' => data_only s'
  | RdError _ :: _ => false
  end.

(** The number of bytes the first [read] can take. *)
Definition first_read_bytes (s : stream) : Z :=
  match s with
  | RdData b bs :: _ => Z.of_nat (length (b :: bs))
  | _ => 0
  end.

(** The value of a hexadecimal digit, in either case. *)
Definition hex_digit_value (c : char) : option Z :=
  if (48 <=? code c) && (code c <=? 57) then Some (code c - 48)
  else if (97 <=? code c) && (code c <=? 102) then Some (code c - 87)
  else if (65 <=? code c) && (code c <=? 70) then Some (code c - 55)
  else None.

(** The number a text of hexadecimal digits denotes, read after the digits
    that gave [acc]; [None] when some character is not a digit. *)
Fixpoint hex_value_from (acc : Z) (l : list char) : option Z :=
  match l with
  | [] => Some acc
  | c :: l' =>
    match hex_digit_value c with
    | Some d => hex_value_from (acc * 16 + d) l'
    | None => None
    end
  end.

Definition hex_value (l : list char) : option Z := hex_value_from 0 l.

(** The length prefix of a reply on the wire: exactly 8 hexadecimal digits
    denoting the payload size. *)
Definition is_hex8 (prefix : list char) (size : Z) : Prop :=
  length prefix = 8%nat /\ hex_value prefix = Some size.

Definition hex_char (d : Z) : char :=
  if d <? 10 then ascii_of_N (Z.to_N (48 + d)) else ascii_of_N (Z.to_N (87 + d)).

(** The [n] low hexadecimal digits of [v], most significant first. *)
Fixpoint hex_digits (n : nat) (v : Z) : list char :=
  match n with
  | O => []
  | S n' => hex_digits n' (v / 16) ++ [hex_char (v mod 16)]
  end.

Definition hex8 (size : Z) : list char := hex_digits 8 size.



(** A payload of 2^31 bytes. *)
Definition payload_2G : list char := replicate (Z.to_nat (2 ^ 31)) "x"%char.

(** A stream delivered in one piece. *)
Definition chunk (l : list char) : stream :=
  match l with
  | [] => []
  | b :: bs => [RdData b bs]
  end.

(** A process with descriptor 3 open on the service, nothing allocated, and
    memory to spare. *)
Definition world0 (s : stream) : World :=
  mkWorld 0 {[3]} [] s ∅ (fun _ => true).

Definition client3 : AicClient := mkAicClient 3.

(** ** AicClient: the destructor, sendMessage and doQuery *)

(** [AicClient::~AicClient] *)
Definition AicClient_destroy (c : AicClient) (w : World) : World :=
  if mSocketFD c >=? 0 then sys_close (mSocketFD c) w else w.

(** The handle of a client, when set, names a descriptor that is open. *)
Definition handle_open (c : AicClient) (w : World) : Prop :=
  0 <= mSocketFD c -> mSocketFD c ∈ w_open w.

(** Outcome of [send]: the value it returns (the number of bytes the socket
    took, or -1) and the errno it leaves on failure. *)
Record SendEnv := mkSendEnv {
  send_ret : Z;
  send_errno : Z
}.

(** [send(mSocketFD, data, data_size, MSG_NOSIGNAL)]: the value returned and
    the bytes that went out. *)
Definition sys_send (env : SendEnv) (data : list char) (data_size : Z) (w : World)
    : Z * list char * World :=
  if send_ret env <? 0 then (send_ret env, [], set_errno (send_errno env) w)
  else (send_ret env, take (Z.to_nat (send_ret env)) (take (Z.to_nat data_size) data), w).

(** [AicClient::sendMessage]: the status, and the bytes that went out.  The
    test [wr_res != data_size] compares an [int] with a [size_t]: the [int]
    is converted. *)
Definition sendMessage (dm : data_model) (env : SendEnv) (c : AicClient)
    (data : list char) (data_size : Z) (w : World) : status_t * list char * World :=
  if mSocketFD c <? 0 then (EINVAL, [], w)
  else
    let '(r, sent, w1) := sys_send env data data_size w in
    let wr_res := to_int r in
    if negb (to_size dm wr_res =? data_size) then (errno_or w1 EIO, sent, w1)
    else (NO_ERROR, sent, w1).

(** The members of a [QemuQuery] that [doQuery] reads and writes itself. *)
Record QueryState := mkQueryState {
  mQuery : list char;               (* the bytes at query->mQuery, a C string *)
  mQueryDeliveryStatus : status_t;
  mReplyBuffer : ptr;
  mReplySize : Z
}.

Definition set_reply (buf : ptr) (size : Z) (query : QueryState) : QueryState :=
  mkQueryState (mQuery query) (mQueryDeliveryStatus query) buf size.

(** What [doQuery] leaves: the status it returns, the query, and the bytes
    that went out on the socket. *)
Record DoQueryResult := mkDoQuery {
  dq_status : status_t;
  dq_query : QueryState;
  dq_sent : list char
}.

(** [AicClient::doQuery].  [QemuQuery::completeQuery] is defined in
    QemuClient.cpp, which is not among these sources: it is a parameter, a
    function of the status it is given and of the query. *)
Definition doQuery (dm : data_model)
    (completeQuery : status_t -> QueryState -> status_t * QueryState)
    (env : SendEnv) (c : AicClient) (query : QueryState) (w : World)
    : option (DoQueryResult * World) :=
  (* Make sure that query has been successfuly constructed. *)
  if negb (mQueryDeliveryStatus query =? NO_ERROR) then
    Some (mkDoQuery (mQueryDeliveryStatus query) query [], w)
  else
    (* Send the query. *)
    let strlen := Z.of_nat (length (cstr (mQuery query))) in
    let '(res, sent, w1) :=
      sendMessage dm env c (cstr (mQuery query) ++ [ascii_of_N 0])
        (size_add dm strlen 1) w in
    if res =? NO_ERROR then
      (* Read the response. *)
      match receiveMessage dm c w1 with
      | Some (rr, w2) =>
        let '(res1, query1) :=
          completeQuery (rr_status rr) (set_reply (rr_data rr) (rr_data_size rr) query) in
        Some (mkDoQuery res1 query1 sent, w2)
      | None => None
      end
    else
      let '(res1, query1) := completeQuery res query in
      Some (mkDoQuery res1 query1 sent, w1).

(** * Properties *)

(** ** Integer conversions *)

Lemma to_int_id z : - 2 ^ 31 <= z <= INT_MAX -> to_int z = z.
Proof.
  unfold to_int, wrap_signed, INT_MAX, int_bits. intros H.
  change (2 ^ (32 - 1)) with 2147483648 in *. change (2 ^ 32) with 4294967296.
  change (2 ^ 31) with 2147483648 in H.
  rewrite Z.mod_small; lia.
Qed.

Lemma size_bits_ge dm : 2 ^ 32 <= 2 ^ size_bits dm.
Proof. destruct dm; unfold size_bits, long_bits; lia. Qed.

Lemma to_size_id dm z : 0 <= z <= SIZE_MAX dm -> to_size dm z = z.
Proof.
  unfold to_size, wrap_unsigned, SIZE_MAX. intros H.
  apply Z.mod_small. lia.
Qed.

Lemma INT_MAX_le_SIZE_MAX dm : INT_MAX < SIZE_MAX dm.
Proof.
  pose proof (size_bits_ge dm). unfold SIZE_MAX, INT_MAX, int_bits.
  change (2 ^ (32 - 1)) with 2147483648. change (2 ^ 32) with 4294967296 in H. lia.
Qed.

Lemma INT_MAX_le_SSIZE_MAX dm : INT_MAX <= SSIZE_MAX dm.
Proof. destruct dm; unfold SSIZE_MAX, LONG_MAX, INT_MAX, long_bits, int_bits; lia. Qed.

Lemma errno_or_nonzero w dflt : dflt <> 0 -> errno_or w dflt <> NO_ERROR.
Proof.
  unfold errno_or, NO_ERROR. intros Hd.
  destruct (w_errno w =? 0) eqn:E; [exact Hd | apply Z.eqb_neq in E; exact E].
Qed.

(** ** Connection life cycle *)

(** C8: [connectClient] on a client that is connected returns EINVAL and
    changes nothing: the client keeps its descriptor, and the world is the
    same, so no descriptor was closed or opened. *)
Theorem connectClient_already_connected env port c w :
  0 <= mSocketFD c ->
  connectClient env port c w = (EINVAL, c, w).
Proof.
  intros Hfd. unfold connectClient.
  destruct (mSocketFD c >=? 0) eqn:E; [reflexivity | lia].
Qed.

Lemma connectClient_already_connected_witness :
  connectClient (mkNetEnv 4 0 0 0) 5555 client3 (world0 []) = (EINVAL, client3, world0 []).
Proof. apply connectClient_already_connected. simpl. lia. Defined.

(** C9: [disconnectClient] on a disconnected client changes neither the
    client nor the world (errno included); after any call the client is
    disconnected, with the handle -1 and the descriptor closed when it had
    one; and a second call changes nothing more. *)
Theorem disconnectClient_idempotent c w :
  (mSocketFD c < 0 -> disconnectClient c w = (c, w)) /\
  mSocketFD (fst (disconnectClient c w)) < 0 /\
  (0 <= mSocketFD c ->
     fst (disconnectClient c w) = mkAicClient (-1) /\
     mSocketFD c ∉ w_open (snd (disconnectClient c w))) /\
  disconnectClient (fst (disconnectClient c w)) (snd (disconnectClient c w))
    = disconnectClient c w.
Proof.
  unfold disconnectClient.
  destruct (mSocketFD c >=? 0) eqn:E; simpl.
  - repeat split; try lia.
    unfold sys_close. destruct (decide (mSocketFD c ∈ w_open w)) as [Hin | Hout]; simpl.
    + intros [_ Hn]%elem_of_difference. apply Hn, elem_of_singleton. reflexivity.
    + exact Hout.
  - rewrite E. repeat split; lia.
Qed.

Lemma disconnectClient_idempotent_witness :
  disconnectClient AicClient_new (world0 []) = (AicClient_new, world0 []) /\
  fst (disconnectClient client3 (world0 [])) = mkAicClient (-1).
Proof.
  split.
  - apply (proj1 (disconnectClient_idempotent AicClient_new (world0 []))). simpl. lia.
  - apply (proj1 (proj2 (proj2 (disconnectClient_idempotent client3 (world0 []))))).
    simpl. lia.
Defined.

(** C10: when [socket] succeeds and [connect] fails, [connectClient]
    returns an error and keeps the new descriptor: it is stored in the
    client and still open.  The client then passes for connected, so every
    further [connectClient] returns EINVAL and changes nothing, until
    [disconnectClient] closes the descriptor and resets the handle; a
    [connectClient] after that goes through. *)
Theorem connectClient_connect_failure_keeps_socket env port c w st c1 w1 :
  mSocketFD c < 0 ->
  0 <= socket_ret env ->
  connect_ret env < 0 ->
  connectClient env port c w = (st, c1, w1) ->
  st = (if connect_errno env =? 0 then EINVAL else connect_errno env) /\
  st <> NO_ERROR /\
  mSocketFD c1 = socket_ret env /\
  0 <= mSocketFD c1 /\
  socket_ret env ∈ w_open w1 /\
  (forall env' port', connectClient env' port' c1 w1 = (EINVAL, c1, w1)) /\
  fst (disconnectClient c1 w1) = mkAicClient (-1) /\
  (socket_ret env ∉ w_open (snd (disconnectClient c1 w1))) /\
  (forall env' port', 0 <= socket_ret env' -> 0 <= connect_ret env' ->
     fst (fst (connectClient env' port' (fst (disconnectClient c1 w1))
                          (snd (disconnectClient c1 w1))))
       = NO_ERROR).
Proof.
  intros Hc Hs Hf. unfold connectClient, sys_socket, sys_connect.
  destruct (mSocketFD c >=? 0) eqn:E1; [lia |].
  destruct (socket_ret env <? 0) eqn:E2; [lia |].
  rewrite E2.
  destruct (connect_ret env <? 0) eqn:E3; [| lia].
  intros Heq. rewrite ?E3 in Heq. injection Heq as <- <- <-.
  split; [reflexivity |].
  split.
  { unfold errno_or, NO_ERROR, EINVAL. simpl.
    destruct (connect_errno env =? 0) eqn:E4; [lia |].
    apply Z.eqb_neq in E4. exact E4. }
  split; [reflexivity |].
  split; [simpl; lia |].
  split; [simpl; apply elem_of_union_l, elem_of_singleton; reflexivity |].
  split.
  { intros env' port'. simpl.
    destruct (socket_ret env >=? 0) eqn:E5; [reflexivity | lia]. }
  unfold disconnectClient. simpl.
  destruct (socket_ret env >=? 0) eqn:E5; [| lia]. simpl.
  split; [reflexivity |].
  split.
  { unfold sys_close. simpl.
    destruct (decide (socket_ret env ∈ {[socket_ret env]} ∪ w_open w)) as [Hin | Hout];
      simpl.
    - intros [_ Hn]%elem_of_difference. apply Hn, elem_of_singleton. reflexivity.
    - exact Hout. }
  intros env' port' Hs' Hc'.
  destruct (socket_ret env' <? 0) eqn:E6; [lia |].
  destruct (connect_ret env' <? 0) eqn:E7; [lia |].
  simpl. rewrite E6, E7. reflexivity.
Qed.

Lemma connectClient_connect_failure_keeps_socket_witness :
  exists c1 w1,
    connectClient (mkNetEnv 4 0 (-1) 111) 5555 AicClient_new (world0 []) = (111, c1, w1) /\
    mSocketFD c1 = 4 /\ 4 ∈ w_open w1 /\
    (forall env' port', connectClient env' port' c1 w1 = (EINVAL, c1, w1)).
Proof.
  eexists _, _. split; [reflexivity |].
  pose proof (connectClient_connect_failure_keeps_socket
                (mkNetEnv 4 0 (-1) 111) 5555 AicClient_new (world0 []) _ _ _
                ltac:(simpl; lia) ltac:(simpl; lia) ltac:(simpl; lia) eq_refl)
    as (_ & _ & H3 & _ & H5 & H6 & _).
  exact (conj H3 (conj H5 H6)).
Defined.

(** ** queryFrame: the two segments of the reply *)

Lemma size_sub_0 dm a : 0 <= a <= SIZE_MAX dm -> size_sub dm a 0 = a.
Proof. intros H. unfold size_sub. rewrite Z.sub_0_r. apply to_size_id, H. Qed.

Lemma size_sub_exact dm a b :
  0 <= b <= a -> a <= SIZE_MAX dm -> size_sub dm a b = a - b.
Proof. intros Hb Ha. unfold size_sub. apply to_size_id. lia. Qed.

Lemma size_add_0 dm b : 0 <= b <= SIZE_MAX dm -> size_add dm 0 b = b.
Proof. intros H. unfold size_add. rewrite Z.add_0_l. apply to_size_id, H. Qed.

Ltac frame_sizes dm :=
  repeat match goal with
  | |- context [size_sub dm ?a 0] => rewrite (size_sub_0 dm a) by lia
  | |- context [size_add dm 0 ?b] => rewrite (size_add_0 dm b) by lia
  | |- context [size_sub dm ?a ?b] => rewrite (size_sub_exact dm a b) by lia
  end.

(** C1: on a completed query, with [video_len] and [preview_len] the
    lengths asked for (0 for a buffer that is null or of size 0).  A reply
    shorter than a video frame that was asked for gives EINVAL and leaves
    both buffers as they were.  A reply of exactly [video_len + preview_len]
    bytes puts its bytes [0, video_len) in the video buffer and its bytes
    [video_len, video_len + preview_len) in the preview buffer.  And a reply
    that holds the video frame but not the whole preview frame gives EINVAL
    with the preview buffer as it was: each segment is checked before any
    byte of it is copied. *)
Theorem queryFrame_segments dm q vframe pframe vframe_size pframe_size :
  getCompletionStatus q = NO_ERROR ->
  reply_wf dm q ->
  0 <= vframe_size <= SIZE_MAX dm ->
  0 <= pframe_size <= SIZE_MAX dm ->
  (0 < requested_len vframe vframe_size ->
   mReplyDataSize q < requested_len vframe vframe_size ->
     fr_status (queryFrame dm vframe pframe vframe_size pframe_size q) = EINVAL /\
     fr_vframe (queryFrame dm vframe pframe vframe_size pframe_size q) = vframe /\
     fr_pframe (queryFrame dm vframe pframe vframe_size pframe_size q) = pframe) /\
  (mReplyDataSize q
   = requested_len vframe vframe_size + requested_len pframe pframe_size ->
     fr_status (queryFrame dm vframe pframe vframe_size pframe_size q) = NO_ERROR /\
     fr_vframe (queryFrame dm vframe pframe vframe_size pframe_size q)
     = (fun vbuf => take (Z.to_nat (requested_len vframe vframe_size)) (mReplyData q)
                      ++ drop (Z.to_nat (requested_len vframe vframe_size)) vbuf)
         <$> vframe /\
     fr_pframe (queryFrame dm vframe pframe vframe_size pframe_size q)
     = (fun pbuf => take (Z.to_nat (requested_len pframe pframe_size))
                      (drop (Z.to_nat (requested_len vframe vframe_size)) (mReplyData q))
                      ++ drop (Z.to_nat (requested_len pframe pframe_size)) pbuf)
         <$> pframe) /\
  (0 < requested_len pframe pframe_size ->
   requested_len vframe vframe_size <= mReplyDataSize q
     < requested_len vframe vframe_size + requested_len pframe pframe_size ->
     fr_status (queryFrame dm vframe pframe vframe_size pframe_size q) = EINVAL /\
     fr_pframe (queryFrame dm vframe pframe vframe_size pframe_size q) = pframe).
Proof.
  intros Hres [Hlen Hmax] Hv Hp.
  assert (Hsz : 0 <= mReplyDataSize q) by lia.
  unfold queryFrame, requested_len, memcpy. rewrite Hres. simpl negb at 1. cbv iota.
  destruct vframe as [vbuf |], pframe as [pbuf |];
    destruct (vframe_size =? 0) eqn:Ev; destruct (pframe_size =? 0) eqn:Ep;
    simpl negb; cbv iota beta; frame_sizes dm;
    repeat match goal with
    | |- context [?a >=? ?b] => destruct (Z.geb_spec a b); cbv iota beta;
                               frame_sizes dm
    end;
    simpl; rewrite ?drop_0;
    (split; [| split]); intros; try lia; auto.
Qed.

Lemma queryFrame_segments_witness :
  (fr_status (queryFrame ILP32 (Some (lit "....")) (Some (lit "-----")) 3 2
                (mkQuery 0 true 0 (lit "ab") 2)) = EINVAL /\
   fr_vframe (queryFrame ILP32 (Some (lit "....")) (Some (lit "-----")) 3 2
                (mkQuery 0 true 0 (lit "ab") 2)) = Some (lit "....") /\
   fr_pframe (queryFrame ILP32 (Some (lit "....")) (Some (lit "-----")) 3 2
                (mkQuery 0 true 0 (lit "ab") 2)) = Some (lit "-----")) /\
  (fr_status (queryFrame ILP32 (Some (lit "...")) (Some (lit "-----")) 3 2
                (mkQuery 0 true 0 (lit "abcde") 5)) = NO_ERROR /\
   fr_vframe (queryFrame ILP32 (Some (lit "...")) (Some (lit "-----")) 3 2
                (mkQuery 0 true 0 (lit "abcde") 5)) = Some (lit "abc") /\
   fr_pframe (queryFrame ILP32 (Some (lit "...")) (Some (lit "-----")) 3 2
                (mkQuery 0 true 0 (lit "abcde") 5)) = Some (lit "de---")).
Proof.
  split.
  - apply (proj1 (queryFrame_segments ILP32 (mkQuery 0 true 0 (lit "ab") 2)
                    (Some (lit "....")) (Some (lit "-----")) 3 2
                    eq_refl ltac:(split; simpl; [reflexivity | vm_compute; discriminate])
                    ltac:(vm_compute; split; discriminate)
                    ltac:(vm_compute; split; discriminate))); simpl; lia.
  - apply (proj1 (proj2 (queryFrame_segments ILP32 (mkQuery 0 true 0 (lit "abcde") 5)
                    (Some (lit "...")) (Some (lit "-----")) 3 2
                    eq_refl ltac:(split; simpl; [reflexivity | vm_compute; discriminate])
                    ltac:(vm_compute; split; discriminate)
                    ltac:(vm_compute; split; discriminate)))).
    reflexivity.
Defined.

(** C3: every [size_t] subtraction [queryFrame] evaluates is
    [mReplyDataSize - cur_offset] with [cur_offset <= mReplyDataSize]; it
    does not wrap, and the comparison that follows sees the true number of
    bytes that remain. *)
Theorem queryFrame_subtractions_exact dm q vframe pframe vframe_size pframe_size :
  0 <= mReplyDataSize q <= SIZE_MAX dm ->
  0 <= vframe_size <= SIZE_MAX dm ->
  Forall (fun ab : Z * Z =>
            fst ab = mReplyDataSize q /\
            0 <= snd ab <= fst ab /\
            size_sub dm (fst ab) (snd ab) = fst ab - snd ab)
         (fr_subs (queryFrame dm vframe pframe vframe_size pframe_size q)).
Proof.
  intros Hsz Hv.
  assert (Hok : forall off, 0 <= off <= mReplyDataSize q ->
            (fun ab : Z * Z => fst ab = mReplyDataSize q /\ 0 <= snd ab <= fst ab /\
               size_sub dm (fst ab) (snd ab) = fst ab - snd ab) (mReplyDataSize q, off)).
  { intros off Hoff. simpl. split; [reflexivity |]. split; [lia |].
    apply size_sub_exact; lia. }
  unfold queryFrame.
  destruct (negb (getCompletionStatus q =? NO_ERROR)); [constructor |].
  assert (Htail : forall vf off subs,
            0 <= off <= mReplyDataSize q ->
            Forall (fun ab : Z * Z => fst ab = mReplyDataSize q /\ 0 <= snd ab <= fst ab /\
                      size_sub dm (fst ab) (snd ab) = fst ab - snd ab) subs ->
            Forall (fun ab : Z * Z => fst ab = mReplyDataSize q /\ 0 <= snd ab <= fst ab /\
                      size_sub dm (fst ab) (snd ab) = fst ab - snd ab)
              (fr_subs
                 match pframe with
                 | Some pbuf =>
                   if negb (pframe_size =? 0) then
                     if size_sub dm (mReplyDataSize q) off >=? pframe_size then
                       mkFrame NO_ERROR vf
                         (Some (memcpy pbuf (drop (Z.to_nat off) (mReplyData q)) pframe_size))
                         (subs ++ [(mReplyDataSize q, off)])
                     else
                       mkFrame EINVAL vf pframe
                         (subs ++ [(mReplyDataSize q, off); (mReplyDataSize q, off)])
                   else mkFrame NO_ERROR vf pframe subs
                 | None => mkFrame NO_ERROR vf pframe subs
                 end)).
  { intros vf off subs Hoff Hsubs.
    destruct pframe as [pbuf |]; [| exact Hsubs].
    destruct (negb (pframe_size =? 0)); [| exact Hsubs].
    destruct (size_sub dm (mReplyDataSize q) off >=? pframe_size); simpl;
      apply Forall_app; split; auto; repeat constructor; apply (Hok off Hoff). }
  destruct vframe as [vbuf |].
  - destruct (negb (vframe_size =? 0)).
    + rewrite (size_sub_0 dm (mReplyDataSize q)) by lia.
      destruct (mReplyDataSize q >=? vframe_size) eqn:Et.
      * rewrite (size_add_0 dm vframe_size) by lia.
        apply Htail; [lia |]. repeat constructor; apply (Hok 0); lia.
      * simpl. repeat constructor; apply (Hok 0); lia.
    + apply Htail; [lia | constructor].
  - apply Htail; [lia | constructor].
Qed.

Lemma queryFrame_subtractions_exact_witness :
  Forall (fun ab : Z * Z =>
            fst ab = 4 /\ 0 <= snd ab <= fst ab /\
            size_sub ILP32 (fst ab) (snd ab) = fst ab - snd ab)
         (fr_subs (queryFrame ILP32 (Some (lit "....")) (Some (lit "-----")) 3 2
                     (mkQuery 0 true 0 (lit "abcd") 4))).
Proof.
  apply (queryFrame_subtractions_exact ILP32 (mkQuery 0 true 0 (lit "abcd") 4)
           (Some (lit "....")) (Some (lit "-----")) 3 2);
    vm_compute; split; discriminate.
Defined.

(** ** malloc and the heap *)

Lemma sys_malloc_ok n w :
  w_malloc_ok w n = true ->
  exists p,
    sys_malloc n w = (p, set_heap (<[p := replicate (Z.to_nat n) None]> (w_heap w)) w) /\
    p <> NULL /\ w_heap w !! p = None.
Proof.
  intros Hok. unfold sys_malloc. rewrite Hok.
  pose proof (is_fresh ({[NULL]} ∪ dom (w_heap w))) as Hfresh.
  eexists. split; [reflexivity |].
  apply not_elem_of_union in Hfresh as [Hnull Hdom]. split.
  - intros Heq. apply Hnull, elem_of_singleton, Heq.
  - apply not_elem_of_dom, Hdom.
Qed.

(** ** snprintf *)

Lemma utoa_aux_length fuel n acc :
  (length (utoa_aux fuel n acc) <= fuel + length acc)%nat.
Proof.
  revert n acc. induction fuel as [| fuel IH]; intros n acc; simpl; [lia |].
  destruct (n / 10 =? 0); simpl; [lia |].
  etransitivity; [apply IH |]. simpl. lia.
Qed.

Lemma itoa_length z :
  - 2 ^ 31 <= z <= INT_MAX -> (length (itoa z) <= 33)%nat.
Proof.
  unfold INT_MAX, int_bits. change (2 ^ (32 - 1)) with (2 ^ 31). intros Hz.
  assert (Hlog : forall n, 0 <= n <= 2 ^ 31 -> (length (utoa n) <= 32)%nat).
  { intros n Hn. unfold utoa.
    etransitivity; [apply utoa_aux_length |]. simpl.
    assert (Z.log2 n <= 31).
    { change 31 with (Z.log2 (2 ^ 31)). apply Z.log2_le_mono. lia. }
    pose proof (Z.log2_nonneg n). lia. }
  unfold itoa. destruct (z <? 0) eqn:E.
  - rewrite length_app. simpl. specialize (Hlog (- z)). lia.
  - specialize (Hlog z). lia.
Qed.

(** The digits [utoa] prints denote the number printed. *)
Lemma utoa_aux_value fuel n acc :
  0 <= n < 2 ^ Z.of_nat fuel ->
  fold_left (fun a c => a * 10 + (code c - 48)) (utoa_aux fuel n acc) 0
  = fold_left (fun a c => a * 10 + (code c - 48)) acc n.
Proof.
  revert n acc. induction fuel as [| fuel IH]; intros n acc Hn.
  - simpl in *. assert (n = 0) by lia. subst. reflexivity.
  - assert (Hd : code (digit_char (n mod 10)) - 48 = n mod 10).
    { pose proof (Z.mod_pos_bound n 10 ltac:(lia)) as Hm.
      unfold code, digit_char. rewrite N_ascii_embedding.
      - rewrite Z2N.id; lia.
      - change 256%N with (Z.to_N 256). apply Z2N.inj_lt; lia. }
    simpl utoa_aux. destruct (n / 10 =? 0) eqn:E.
    + apply Z.eqb_eq in E. simpl. rewrite Hd.
      f_equal. pose proof (Z.div_mod n 10 ltac:(lia)). lia.
    + rewrite IH.
      * simpl. rewrite Hd. f_equal. pose proof (Z.div_mod n 10 ltac:(lia)). lia.
      * rewrite Nat2Z.inj_succ, Z.pow_succ_r in Hn by lia.
        split; [apply Z.div_pos; lia |].
        apply Z.div_lt_upper_bound; lia.
Qed.

Lemma dec_value_utoa n : 0 <= n -> dec_value (utoa n) = n.
Proof.
  intros Hn. unfold dec_value, utoa. rewrite utoa_aux_value; [reflexivity |].
  split; [exact Hn |].
  destruct (Z.eq_dec n 0) as [-> | Hnz]; [simpl; lia |].
  rewrite Nat2Z.inj_succ, Z2Nat.id by apply Z.log2_nonneg.
  apply Z.log2_spec. lia.
Qed.

(** ** queryStart: the command string *)

(** X18: The string [queryStart] builds is never cut by the 256 bytes of
    [query_str]: it is the verb, then the three numbers as [%d] prints them.
    A pixel format below 2^31 is printed as its own decimal value. *)
Lemma queryStart_query_str_layout pixel_format width height :
  - 2 ^ 31 <= width <= INT_MAX ->
  - 2 ^ 31 <= height <= INT_MAX ->
  0 <= pixel_format < 2 ^ 32 ->
  queryStart_query_str pixel_format width height
  = Some (lit "start dim=" ++ itoa width ++ lit "x" ++ itoa height
            ++ lit " pix=" ++ itoa (to_int pixel_format)) /\
  (pixel_format <= INT_MAX ->
     itoa (to_int pixel_format) = utoa pixel_format /\
     dec_value (utoa pixel_format) = pixel_format).
Proof.
  intros Hw Hh Hp. split.
  - unfold queryStart_query_str, snprintf.
    assert (Hf : vformat (lit "%s dim=%dx%d pix=%d")
                   [ArgStr mQueryStart; ArgInt width; ArgInt height; ArgInt pixel_format]
                 = Some (lit "start dim=" ++ itoa (to_int width) ++ lit "x"
                           ++ itoa (to_int height) ++ lit " pix="
                           ++ itoa (to_int pixel_format) ++ [])) by reflexivity.
    rewrite Hf, app_nil_r, !to_int_id by lia.
    cbv [fmap option_fmap option_map]. f_equal.
    apply take_ge.
    assert (Hpi : - 2 ^ 31 <= to_int pixel_format <= INT_MAX).
    { unfold to_int, wrap_signed, INT_MAX, int_bits.
      change (2 ^ (32 - 1)) with 2147483648. change (2 ^ 32) with 4294967296.
      change (2 ^ 31) with 2147483648.
      pose proof (Z.mod_pos_bound (pixel_format + 2147483648) 4294967296 ltac:(lia)). lia. }
    pose proof (itoa_length width Hw). pose proof (itoa_length height Hh).
    pose proof (itoa_length _ Hpi).
    rewrite !length_app. change (length (lit "start dim=")) with 10%nat.
    change (length (lit "x")) with 1%nat. change (length (lit " pix=")) with 5%nat.
    change (Z.to_nat (256 - 1)) with 255%nat. lia.
  - intros Hsmall. rewrite to_int_id by lia. split.
    + unfold itoa. destruct (pixel_format <? 0) eqn:E; [lia | reflexivity].
    + apply dec_value_utoa. lia.
Qed.

(** C7: the command string for the documented example, and for a pixel
    format with its top bit set: [%d] prints the [uint32_t] as an [int], so
    2147483648 goes out as -2147483648. *)
Theorem queryStart_pix_printed_as_int :
  queryStart_query_str 842094169 1280 720
    = Some (lit "start dim=1280x720 pix=842094169") /\
  queryStart_query_str 2147483648 1280 720
    = Some (lit "start dim=1280x720 pix=-2147483648") /\
  utoa 2147483648 = lit "2147483648".
Proof. repeat split; vm_compute; reflexivity. Qed.

(** ** queryInfo *)

Lemma cstr_length s : (length (cstr s) <= length s)%nat.
Proof.
  induction s as [| c s IH]; simpl; [lia |].
  destruct (code c =? 0); simpl; lia.
Qed.

(** An empty reply to a query that succeeded: EINVAL, nothing stored,
    whatever the pointer. *)
Lemma queryInfo_empty_reply dm p_info_string q w :
  doQuery_ret q = NO_ERROR -> isQuerySucceeded q = true -> mReplyDataSize q = 0 ->
  queryInfo dm p_info_string q w = Returned (EINVAL, p_info_string, w).
Proof.
  intros Hd Hs Hz. unfold queryInfo. rewrite Hd, Hs, Hz. reflexivity.
Qed.

(** X17: A reply with data that holds a zero byte: a fresh block receives
    the text of the reply, up to that byte, and a terminating zero, and its
    address is stored through the pointer. *)
Lemma queryInfo_stores_text dm old q w :
  doQuery_ret q = NO_ERROR -> isQuerySucceeded q = true ->
  reply_wf dm q -> 0 < mReplyDataSize q < SIZE_MAX dm ->
  has_zero (mReplyData q) = true ->
  w_malloc_ok w (mReplyDataSize q + 1) = true ->
  exists p w',
    queryInfo dm (Some old) q w = Returned (NO_ERROR, Some p, w') /\
    p <> NULL /\ w_heap w !! p = None /\
    w_heap w' !! p
    = Some ((Some <$> cstr (mReplyData q) ++ [ascii_of_N 0])
              ++ replicate (length (mReplyData q) - length (cstr (mReplyData q))) None).
Proof.
  intros Hd Hs [Hlen Hmax] Hsz Hzero Hok. unfold queryInfo. rewrite Hd, Hs. simpl.
  destruct (mReplyDataSize q =? 0) eqn:E; [lia |].
  unfold size_add. rewrite to_size_id by lia.
  destruct (sys_malloc_ok _ _ Hok) as (p & -> & Hnull & Hfree).
  destruct (p =? NULL) eqn:Ep; [lia |].
  rewrite take_ge by lia. rewrite Hzero. simpl negb. cbv iota.
  rewrite app_nil_r, take_ge by (pose proof (cstr_length (mReplyData q)); lia).
  eexists _, _. split; [reflexivity |].
  split; [exact Hnull |]. split; [exact Hfree |].
  unfold mem_write. simpl. rewrite lookup_alter_eq, lookup_insert_eq. simpl.
  f_equal. unfold write_at. simpl. f_equal.
  pose proof (cstr_length (mReplyData q)) as Hc.
  rewrite drop_replicate, length_app. simpl. f_equal. lia.
Qed.

(** X20: A reply with data but without a zero byte: the [%s] of the
    [snprintf] reads past the end of the reply. *)
Lemma queryInfo_reads_past_reply dm old q w :
  doQuery_ret q = NO_ERROR -> isQuerySucceeded q = true ->
  reply_wf dm q -> 0 < mReplyDataSize q < SIZE_MAX dm ->
  has_zero (mReplyData q) = false ->
  w_malloc_ok w (mReplyDataSize q + 1) = true ->
  queryInfo dm (Some old) q w = Undefined OverRead.
Proof.
  intros Hd Hs [Hlen Hmax] Hsz Hzero Hok. unfold queryInfo. rewrite Hd, Hs. simpl.
  destruct (mReplyDataSize q =? 0) eqn:E; [lia |].
  unfold size_add. rewrite to_size_id by lia.
  destruct (sys_malloc_ok _ _ Hok) as (p & -> & Hnull & Hfree).
  destruct (p =? NULL) eqn:Ep; [lia |].
  rewrite take_ge by lia. rewrite Hzero. reflexivity.
Qed.

(** C6: a null [p_info_string] is logged but not refused: when the query
    succeeds with data, the call goes on to store through the null pointer
    instead of returning EINVAL. *)
Theorem queryInfo_null_pointer_not_refused dm q w :
  doQuery_ret q = NO_ERROR -> isQuerySucceeded q = true -> mReplyDataSize q <> 0 ->
  queryInfo dm None q w = Undefined NullStore.
Proof.
  intros Hd Hs Hz. unfold queryInfo. rewrite Hd, Hs. simpl.
  destruct (mReplyDataSize q =? 0) eqn:E; [lia |].
  destruct (sys_malloc _ w). reflexivity.
Qed.

Lemma queryInfo_null_pointer_not_refused_witness :
  queryInfo ILP32 None (mkQuery 0 true 0 (lit "name=cam") 8) (world0 [])
  = Undefined NullStore.
Proof.
  apply queryInfo_null_pointer_not_refused; [reflexivity | reflexivity | discriminate].
Defined.

(** ** strtol on hexadecimal digits *)

Lemma hex_digit_value_spec c d :
  hex_digit_value c = Some d ->
  0 <= d < 16 /\ digit_of c = Some d /\ isspace c = false /\
  code c <> 45 /\ code c <> 43 /\ code c <> 120 /\ code c <> 88.
Proof.
  unfold hex_digit_value, digit_of, isspace, isdigit, isalpha, isupper, islower.
  generalize (code c) as n. intros n.
  repeat match goal with
  | |- context [?a <=? ?b] => destruct (Z.leb_spec a b)
  | |- context [?a =? ?b] => destruct (Z.eqb_spec a b)
  end; simpl; intros Heq; try discriminate; injection Heq as <-;
    repeat split; try lia; try (f_equal; lia).
Qed.

Lemma hex_value_from_mono l acc v :
  0 <= acc -> hex_value_from acc l = Some v -> acc <= v.
Proof.
  revert acc. induction l as [| c l IH]; intros acc Hacc; simpl.
  - intros [= <-]. lia.
  - destruct (hex_digit_value c) as [d |] eqn:Ed; [| discriminate].
    destruct (hex_digit_value_spec _ _ Ed) as (Hd & _).
    intros H. apply IH in H; lia.
Qed.

Lemma LONG_MAX_cut dm :
  LONG_MAX dm = 16 * Z.quot (LONG_MAX dm) 16 + 15 /\
  Z.rem (LONG_MAX dm) 16 = 15 /\ 0 <= Z.quot (LONG_MAX dm) 16.
Proof. destruct dm; vm_compute; repeat split; discriminate. Qed.

Lemma strtol_loop_hex dm l acc any v :
  0 <= acc -> 0 <= any ->
  hex_value_from acc l = Some v -> v <= LONG_MAX dm ->
  strtol_loop dm false 16 (Z.quot (LONG_MAX dm) 16) (Z.rem (LONG_MAX dm) 16) l acc any false
  = (v, false).
Proof.
  destruct (LONG_MAX_cut dm) as (Hmax & Hlim & Hcut). rewrite Hlim.
  revert acc any. induction l as [| c l IH]; intros acc any Hacc Hany; simpl.
  - intros [= <-] _. reflexivity.
  - destruct (hex_digit_value c) as [d |] eqn:Ed; [| discriminate].
    destruct (hex_digit_value_spec _ _ Ed) as (Hd & -> & _).
    intros Hv Hle.
    assert (Hstep : acc * 16 + d <= v)
      by (apply (hex_value_from_mono l); [lia | exact Hv]).
    destruct (d >=? 16) eqn:E1; [lia |].
    destruct (any <? 0) eqn:E2; [lia |].
    destruct (acc >? Z.quot (LONG_MAX dm) 16) eqn:E3; [lia |].
    destruct (acc =? Z.quot (LONG_MAX dm) 16) eqn:E4;
      destruct (d >? 15) eqn:E5; simpl; try lia; apply IH; auto; lia.
Qed.

(** On a text of hexadecimal digits that fits a [long], [strtol] returns the
    number the digits denote and leaves errno alone. *)
Lemma strtol_hex dm l v :
  hex_value l = Some v -> v <= LONG_MAX dm -> strtol dm l 16 = (v, false).
Proof.
  unfold hex_value. intros Hv Hle.
  destruct l as [| c l].
  - injection Hv as <-. destruct dm; reflexivity.
  - pose proof Hv as Hv'. simpl in Hv'.
    destruct (hex_digit_value c) as [d |] eqn:Ed; [| discriminate].
    destruct (hex_digit_value_spec _ _ Ed) as (Hd & _ & Hsp & Hm & Hp & _).
    rewrite <- (strtol_loop_hex dm (c :: l) 0 0 v) by (auto; lia).
    unfold strtol. simpl skip_space. rewrite Hsp.
    destruct (code c =? 45) eqn:E1; [lia |].
    destruct (code c =? 43) eqn:E2; [lia |].
    destruct l as [| x l]; [reflexivity |].
    simpl in Hv'. destruct (hex_digit_value x) as [dx |] eqn:Ex; [| discriminate].
    destruct (hex_digit_value_spec _ _ Ex) as (_ & _ & _ & _ & _ & Hx1 & Hx2).
    destruct (code x =? 120) eqn:E3; [lia |].
    destruct (code x =? 88) eqn:E4; [lia |].
    change (false || false) with false. rewrite andb_false_r. reflexivity.
Qed.

(** The service's side of the prefix: the 8 digits of a size below 2^32
    denote that size. *)
Lemma hex_digit_value_hex_char d : 0 <= d < 16 -> hex_digit_value (hex_char d) = Some d.
Proof.
  intros Hd.
  assert (H : d = 0 \/ d = 1 \/ d = 2 \/ d = 3 \/ d = 4 \/ d = 5 \/ d = 6 \/ d = 7 \/
              d = 8 \/ d = 9 \/ d = 10 \/ d = 11 \/ d = 12 \/ d = 13 \/ d = 14 \/ d = 15)
    by lia.
  repeat (destruct H as [-> | H]; [reflexivity |]). subst. reflexivity.
Qed.

Lemma hex_value_from_app l1 l2 acc :
  hex_value_from acc (l1 ++ l2)
  = match hex_value_from acc l1 with
    | Some a => hex_value_from a l2
    | None => None
    end.
Proof.
  revert acc. induction l1 as [| c l1 IH]; intros acc; simpl; [reflexivity |].
  destruct (hex_digit_value c); [apply IH | reflexivity].
Qed.

Lemma hex_digits_value n v acc :
  0 <= v ->
  hex_value_from acc (hex_digits n v) = Some (acc * 16 ^ Z.of_nat n + v mod 16 ^ Z.of_nat n).
Proof.
  revert v. induction n as [| n IH]; intros v Hv.
  - simpl. rewrite Z.mod_1_r. f_equal. lia.
  - simpl hex_digits. rewrite hex_value_from_app, IH by (apply Z.div_pos; lia).
    simpl. rewrite hex_digit_value_hex_char by (apply Z.mod_pos_bound; lia).
    f_equal. rewrite Nat2Z.inj_succ, Z.pow_succ_r by lia.
    rewrite (Z.rem_mul_r v 16 (16 ^ Z.of_nat n)) by lia. lia.
Qed.

Lemma hex_digits_length n v : length (hex_digits n v) = n.
Proof.
  revert v. induction n as [| n IH]; intros v; simpl; [reflexivity |].
  rewrite length_app, IH. simpl. lia.
Qed.

Lemma is_hex8_hex8 size : 0 <= size < 2 ^ 32 -> is_hex8 (hex8 size) size.
Proof.
  intros Hs. split.
  - apply hex_digits_length.
  - unfold hex_value, hex8. rewrite hex_digits_value by lia.
    f_equal. change (16 ^ Z.of_nat 8) with (2 ^ 32). rewrite Z.mod_small; lia.
Qed.

(** ** receiveMessage *)

Lemma to_int_range z : - 2 ^ 31 <= to_int z <= INT_MAX.
Proof.
  unfold to_int, wrap_signed, INT_MAX, int_bits.
  change (2 ^ (32 - 1)) with 2147483648. change (2 ^ 32) with 4294967296.
  change (2 ^ 31) with 2147483648.
  pose proof (Z.mod_pos_bound (z + 2147483648) 4294967296 ltac:(lia)). lia.
Qed.


(** A negative [int] passed as the [size_t] count of [read] is above
    SSIZE_MAX. *)
Lemma to_size_negative dm z : - 2 ^ 31 <= z < 0 -> to_size dm z > SSIZE_MAX dm.
Proof.
  intros Hz. unfold to_size, wrap_unsigned, SSIZE_MAX, LONG_MAX, size_bits.
  rewrite <- (Z.mod_add z 1 (2 ^ long_bits dm)) by (destruct dm; simpl; lia).
  rewrite Z.mod_small; destruct dm; simpl long_bits; lia.
Qed.

Lemma stream_data_nil s : data_only s = true -> stream_data s = [] -> s = [].
Proof. destruct s as [| [b bs | e] s]; simpl; intros; congruence. Qed.

Lemma heap_free_written (h0 : gmap Z (list mem_byte)) p blk f :
  h0 !! p = None -> delete p (alter f p (<[p := blk]> h0)) = h0.
Proof.
  intros Hp. rewrite alter_insert_eq, delete_insert_eq. apply delete_id, Hp.
Qed.

Lemma recv_loop_unfold dm fuel data payload_size payload_read payload_left ptr_off w :
  recv_loop dm (S fuel) data payload_size payload_read payload_left ptr_off w
  = let '(r, got, w1) := sys_read dm (to_size dm payload_left) w in
    let w2 := mem_write data ptr_off got w1 in
    let rd_res := to_int r in
    if rd_res >? 0 then
      if to_size dm (to_int (payload_read + rd_res)) =? payload_size then
        Some (mkRecv NO_ERROR data payload_size, w2)
      else recv_loop dm fuel data payload_size (to_int (payload_read + rd_res))
             (to_int (payload_left - rd_res)) (ptr_off + rd_res) w2
    else if negb (to_size dm payload_read =? payload_size) then
      Some (mkRecv (errno_or (sys_free data w2) EIO) NULL 0, sys_free data w2)
    else Some (mkRecv NO_ERROR data 0, w2).
Proof. reflexivity. Qed.

(** The loop on a stream that ends before the payload is complete: the
    block is freed and the call returns [errno ? errno : EIO]; errno is the
    one the loop was entered with when the stream just ends. *)
Lemma recv_loop_truncated dm fuel :
  forall data payload_size payload_read payload_left ptr_off w h0 blk,
  0 <= payload_read <= INT_MAX ->
  - 2 ^ 31 <= payload_left <= INT_MAX ->
  (0 <= payload_left -> payload_read + payload_left <= INT_MAX) ->
  payload_read + Z.of_nat (length (stream_data (w_incoming w))) < payload_size ->
  (Z.to_nat payload_left < fuel)%nat ->
  h0 !! data = None ->
  w_heap w = <[data := blk]> h0 ->
  exists w',
    recv_loop dm fuel data payload_size payload_read payload_left ptr_off w
    = Some (mkRecv (errno_or w' EIO) NULL 0, w') /\
    w_heap w' = h0 /\
    (data_only (w_incoming w) = true -> 0 <= payload_left -> w_errno w' = w_errno w).
Proof.
  induction fuel as [| fuel IH];
    intros data payload_size payload_read payload_left ptr_off w h0 blk
           Hread Hleft Hsum Hshort Hfuel Hfree Hheap; [lia |].
  rewrite recv_loop_unfold.
  assert (Hneq : (to_size dm payload_read =? payload_size) = false).
  { rewrite to_size_id by (pose proof (INT_MAX_le_SIZE_MAX dm); lia).
    apply Z.eqb_neq. lia. }
  assert (Hexit : forall got w1,
            w_heap w1 = w_heap w ->
            w_heap (sys_free data (mem_write data ptr_off got w1)) = h0).
  { intros got w1 Hw1. simpl. rewrite Hw1, Hheap. apply heap_free_written, Hfree. }
  destruct (Z.ltb_spec payload_left 0) as [Hneg | Hpos].
  - (* a negative count: read refuses it *)
    unfold sys_read.
    pose proof (to_size_negative dm payload_left ltac:(lia)) as Hbig.
    destruct (to_size dm payload_left >? SSIZE_MAX dm) eqn:E; [| lia].
    cbv beta iota zeta. change (to_int (-1) >? 0) with false. cbv iota.
    rewrite Hneq. simpl negb. cbv iota.
    eexists. split; [reflexivity |]. split; [apply Hexit; reflexivity | lia].
  - rewrite (to_size_id dm payload_left)
      by (pose proof (INT_MAX_le_SIZE_MAX dm); lia).
    unfold sys_read.
    pose proof (INT_MAX_le_SSIZE_MAX dm) as Hss.
    destruct (payload_left >? SSIZE_MAX dm) eqn:E; [lia |].
    destruct (w_incoming w) as [| [b bs | e] s] eqn:Es.
    + cbv beta iota zeta. change (to_int 0 >? 0) with false. cbv iota.
      rewrite Hneq. simpl negb. cbv iota.
      eexists. split; [reflexivity |]. split; [apply Hexit; reflexivity |].
      intros _ _. reflexivity.
    + set (got := take (Z.to_nat payload_left) (b :: bs)).
      set (rest := match drop (Z.to_nat payload_left) (b :: bs) with
                   | [] => s
                   | b' :: bs' => RdData b' bs' :: s
                   end).
      cbv beta iota zeta.
      assert (Hgot : Z.of_nat (length got) <= payload_left).
      { unfold got. rewrite length_take. lia. }
      assert (Hdata : (length (stream_data rest) + length got
                       = length (stream_data (RdData b bs :: s)))%nat).
      { unfold rest, got.
        pose proof (take_drop (Z.to_nat payload_left) (b :: bs)) as Htd.
        destruct (drop (Z.to_nat payload_left) (b :: bs)) as [| b' bs'] eqn:Ed.
        - rewrite app_nil_r in Htd. rewrite Htd.
          change (stream_data (RdData b bs :: s)) with ((b :: bs) ++ stream_data s).
          rewrite length_app. lia.
        - change (stream_data (RdData b' bs' :: s)) with ((b' :: bs') ++ stream_data s).
          change (stream_data (RdData b bs :: s)) with ((b :: bs) ++ stream_data s).
          rewrite <- Htd at 2. rewrite !length_app. lia. }
      rewrite (to_int_id (Z.of_nat (length got))) by lia.
      destruct (Z.of_nat (length got) >? 0) eqn:Egot.
      * rewrite !to_int_id by lia.
        rewrite (to_size_id dm (payload_read + Z.of_nat (length got)))
          by (pose proof (INT_MAX_le_SIZE_MAX dm); lia).
        simpl in Hshort.
        destruct (payload_read + Z.of_nat (length got) =? payload_size) eqn:Ecmp;
          [simpl in Hdata; lia |].
        destruct (IH data payload_size (payload_read + Z.of_nat (length got))
                    (payload_left - Z.of_nat (length got))
                    (ptr_off + Z.of_nat (length got))
                    (mem_write data ptr_off got (set_incoming rest w))
                    h0 (write_at (Z.to_nat ptr_off) got blk))
          as (w' & Hrun & Hh & Herr).
        -- lia.
        -- lia.
        -- lia.
        -- simpl in *. lia.
        -- lia.
        -- exact Hfree.
        -- simpl. rewrite Hheap. apply alter_insert_eq.
        -- exists w'. split; [exact Hrun |]. split; [exact Hh |].
           intros Hdo _. simpl in Hdo. rewrite Herr; [reflexivity | | lia].
           simpl. unfold rest.
           destruct (drop (Z.to_nat payload_left) (b :: bs)); exact Hdo.
      * rewrite Hneq. simpl negb. cbv iota.
        eexists. split; [reflexivity |].
        split; [apply Hexit; reflexivity |]. intros _ _. reflexivity.
    + cbv beta iota zeta. change (to_int (-1) >? 0) with false. cbv iota.
      rewrite Hneq. simpl negb. cbv iota.
      eexists. split; [reflexivity |]. split; [apply Hexit; reflexivity |].
      intros Hdo. discriminate Hdo.
Qed.

(** The loop never runs out of the iterations [receiveMessage] allows it:
    every pass that goes on has taken at least one byte off [payload_left]. *)
Lemma recv_loop_total dm fuel :
  forall data payload_size payload_read payload_left ptr_off w,
  - 2 ^ 31 <= payload_left <= INT_MAX ->
  (Z.to_nat payload_left < fuel)%nat ->
  is_Some (recv_loop dm fuel data payload_size payload_read payload_left ptr_off w).
Proof.
  induction fuel as [| fuel IH];
    intros data payload_size payload_read payload_left ptr_off w Hleft Hfuel; [lia |].
  rewrite recv_loop_unfold.
  destruct (sys_read dm (to_size dm payload_left) w) as [[r got] w1] eqn:Er.
  cbv beta iota zeta.
  destruct (to_int r >? 0) eqn:Epos.
  - destruct (to_size dm (to_int (payload_read + to_int r)) =? payload_size);
      [eexists; reflexivity |].
    assert (Hr : 0 < r <= payload_left).
    { unfold sys_read in Er.
      destruct (to_size dm payload_left >? SSIZE_MAX dm) eqn:E.
      - injection Er as <- _ _. change (to_int (-1)) with (-1) in Epos. lia.
      - destruct (Z.ltb_spec payload_left 0) as [Hneg | Hpos].
        + pose proof (to_size_negative dm payload_left ltac:(lia)). lia.
        + rewrite (to_size_id dm payload_left) in Er
            by (pose proof (INT_MAX_le_SIZE_MAX dm); lia).
          destruct (w_incoming w) as [| [b bs | e] s].
          * injection Er as <- _ _. change (to_int 0) with 0 in Epos. lia.
          * injection Er as <- _ _.
            assert (Hk : Z.of_nat (length (take (Z.to_nat payload_left) (b :: bs)))
                         <= payload_left) by (rewrite length_take; lia).
            rewrite to_int_id in Epos by lia. lia.
          * injection Er as <- _ _. change (to_int (-1)) with (-1) in Epos. lia. }
    apply IH; [apply to_int_range |].
    rewrite (to_int_id r) by lia. rewrite to_int_id by lia. lia.
  - destruct (negb (to_size dm payload_read =? payload_size)); eexists; reflexivity.
Qed.

(** X10: [receiveMessage] always returns. *)
Lemma receiveMessage_total dm c w : is_Some (receiveMessage dm c w).
Proof.
  unfold receiveMessage.
  destruct (mSocketFD c <? 0); [eexists; reflexivity |].
  destruct (sys_read dm 8 w) as [[r got] w1].
  destruct (negb (to_int r =? 8)); [eexists; reflexivity |].
  destruct (strtol dm got 16) as [v erange].
  destruct (negb (w_errno (if erange then set_errno ERANGE (set_errno 0 w1)
                           else set_errno 0 w1) =? 0)); [eexists; reflexivity |].
  destruct (sys_malloc _ _) as [data w4].
  destruct (data =? NULL); [eexists; reflexivity |].
  apply recv_loop_total; [apply to_int_range | lia].
Qed.

(** Storing the next piece of the payload behind the pieces stored so far. *)
Lemma write_at_next (payload piece rest : list char) off :
  drop off payload = piece ++ rest ->
  (off <= length payload)%nat ->
  write_at off piece ((Some <$> take off payload) ++ replicate (length payload - off) None)
  = (Some <$> take (off + length piece) payload)
      ++ replicate (length payload - (off + length piece)) None.
Proof.
  intros Hdrop Hoff. unfold write_at.
  assert (Hlen : length (Some <$> take off payload) = off)
    by (rewrite length_fmap, length_take; lia).
  rewrite take_app_length' by (symmetry; exact Hlen).
  rewrite drop_app_ge by lia. rewrite Hlen.
  replace (off + length piece - off)%nat with (length piece) by lia.
  rewrite drop_replicate.
  rewrite <- take_take_drop, Hdrop, take_app_length, fmap_app, <- app_assoc.
  do 3 f_equal. lia.
Qed.

(** The loop on a stream that holds the rest of the payload, in whatever
    pieces: it stops with the block filled by the payload. *)
Lemma recv_loop_complete dm fuel :
  forall data (payload : list char) off w h0,
  Z.of_nat (length payload) <= INT_MAX ->
  (off < length payload)%nat ->
  (length payload - off < fuel)%nat ->
  data_only (w_incoming w) = true ->
  stream_data (w_incoming w) = drop off payload ->
  w_heap w
  = <[data := (Some <$> take off payload) ++ replicate (length payload - off) None]> h0 ->
  exists w',
    recv_loop dm fuel data (Z.of_nat (length payload)) (Z.of_nat off)
      (Z.of_nat (length payload) - Z.of_nat off) (Z.of_nat off) w
    = Some (mkRecv NO_ERROR data (Z.of_nat (length payload)), w') /\
    w_heap w' = <[data := Some <$> payload]> h0 /\
    w_errno w' = w_errno w /\
    w_incoming w' = [].
Proof.
  induction fuel as [| fuel IH];
    intros data payload off w h0 Hmax Hoff Hfuel Honly Hdata Hheap; [lia |].
  pose proof (INT_MAX_le_SIZE_MAX dm) as Hsm.
  pose proof (INT_MAX_le_SSIZE_MAX dm) as Hss.
  rewrite recv_loop_unfold.
  rewrite (to_size_id dm (Z.of_nat (length payload) - Z.of_nat off)) by lia.
  unfold sys_read.
  destruct (Z.of_nat (length payload) - Z.of_nat off >? SSIZE_MAX dm) eqn:E; [lia |].
  replace (Z.to_nat (Z.of_nat (length payload) - Z.of_nat off))
    with (length payload - off)%nat by lia.
  assert (Hdl : length (drop off payload) = (length payload - off)%nat)
    by apply length_drop.
  destruct (w_incoming w) as [| [b bs | e] s] eqn:Es.
  - simpl in Hdata. rewrite <- Hdata in Hdl. simpl in Hdl. lia.
  - change (stream_data (RdData b bs :: s)) with ((b :: bs) ++ stream_data s) in Hdata.
    assert (Hk : (length (b :: bs) + length (stream_data s) = length payload - off)%nat)
      by (rewrite <- Hdl, <- Hdata, length_app; reflexivity).
    rewrite take_ge, drop_ge by lia.
    cbv beta iota zeta.
    set (k := length (b :: bs)) in *.
    assert (Hk1 : (1 <= k)%nat) by (unfold k; simpl; lia).
    rewrite (to_int_id (Z.of_nat k)) by lia.
    destruct (Z.of_nat k >? 0) eqn:Ek; [| lia].
    rewrite !to_int_id by lia.
    rewrite (to_size_id dm (Z.of_nat off + Z.of_nat k)) by lia.
    assert (Hw2 : w_heap (mem_write data (Z.of_nat off) (b :: bs) (set_incoming s w))
                  = <[data := (Some <$> take (off + k) payload)
                                ++ replicate (length payload - (off + k)) None]> h0).
    { simpl w_heap. rewrite Hheap, alter_insert_eq, Nat2Z.id.
      f_equal. apply (write_at_next payload (b :: bs) (stream_data s));
        [symmetry; exact Hdata | lia]. }
    destruct (Z.of_nat off + Z.of_nat k =? Z.of_nat (length payload)) eqn:Edone.
    + apply Z.eqb_eq in Edone.
      eexists. split; [reflexivity |].
      split.
      { rewrite Hw2. replace (off + k)%nat with (length payload) by lia.
        rewrite take_ge, Nat.sub_diag by lia. simpl. rewrite app_nil_r. reflexivity. }
      split; [reflexivity |].
      simpl. apply stream_data_nil; [exact Honly |].
      apply length_zero_iff_nil. lia.
    + apply Z.eqb_neq in Edone.
      replace (Z.of_nat off + Z.of_nat k) with (Z.of_nat (off + k)) by lia.
      replace (Z.of_nat (length payload) - Z.of_nat off - Z.of_nat k)
        with (Z.of_nat (length payload) - Z.of_nat (off + k)) by lia.
      destruct (IH data payload (off + k)%nat
                  (mem_write data (Z.of_nat off) (b :: bs) (set_incoming s w)) h0)
        as (w' & Hrun & Hh & Herr & Hin).
      * exact Hmax.
      * lia.
      * lia.
      * exact Honly.
      * simpl. rewrite <- drop_drop, <- Hdata. unfold k.
        rewrite drop_app_length. reflexivity.
      * exact Hw2.
      * exists w'. repeat split; assumption.
  - discriminate Honly.
Qed.

(** The first [read], of 8 bytes, when the stream has them at hand. *)
Lemma first_read_full dm w :
  8 <= first_read_bytes (w_incoming w) ->
  exists rest,
    sys_read dm 8 w = (8, take 8 (stream_data (w_incoming w)), set_incoming rest w) /\
    stream_data rest = drop 8 (stream_data (w_incoming w)) /\
    data_only rest = data_only (w_incoming w).
Proof.
  intros Hfirst. unfold sys_read.
  assert (E : (8 >? SSIZE_MAX dm) = false) by (destruct dm; reflexivity).
  rewrite E.
  destruct (w_incoming w) as [| [b bs | e] s]; simpl in Hfirst; try lia.
  change (Z.to_nat 8) with 8%nat.
  change (stream_data (RdData b bs :: s)) with ((b :: bs) ++ stream_data s).
  assert (Hlen : (8 <= length (b :: bs))%nat) by (simpl; lia).
  eexists. split; [| split].
  - rewrite length_take_le by exact Hlen. rewrite take_app_le by exact Hlen. reflexivity.
  - rewrite drop_app_le by exact Hlen.
    destruct (drop 8 (b :: bs)) as [| b' bs']; reflexivity.
  - destruct (drop 8 (b :: bs)) as [| b' bs']; reflexivity.
Qed.

Lemma first_read_bytes_le s : first_read_bytes s <= Z.of_nat (length (stream_data s)).
Proof.
  destruct s as [| [b bs | e] s]; simpl; try lia.
  rewrite length_app. lia.
Qed.



(** X9: When the stream just ends (no [read] fails) inside the payload of a
    well-formed prefix, the status is EIO itself: errno was cleared before
    the conversion. *)
Lemma receiveMessage_payload_cut_EIO dm c w prefix size :
  0 <= mSocketFD c ->
  is_hex8 prefix size -> size <= INT_MAX ->
  w_malloc_ok w size = true ->
  data_only (w_incoming w) = true ->
  8 <= first_read_bytes (w_incoming w) ->
  take 8 (stream_data (w_incoming w)) = prefix ->
  Z.of_nat (length (stream_data (w_incoming w))) - 8 < size ->
  exists w',
    receiveMessage dm c w = Some (mkRecv EIO NULL 0, w') /\ w_heap w' = w_heap w.
Proof.
  intros Hfd [Hlen Hval] Hmax Hmem Honly Hfirst Hpre Hshort.
  assert (Hsize0 : 0 <= size)
    by (apply (hex_value_from_mono prefix 0); [lia | exact Hval]).
  pose proof (INT_MAX_le_SIZE_MAX dm) as Hsm.
  assert (Hlong : size <= LONG_MAX dm).
  { pose proof (INT_MAX_le_SSIZE_MAX dm) as Hss. unfold SSIZE_MAX in Hss. lia. }
  unfold receiveMessage.
  destruct (mSocketFD c <? 0) eqn:Efd; [lia |].
  destruct (first_read_full dm w Hfirst) as (rest & -> & Hrest & Hro).
  cbv beta iota zeta. change (negb (to_int 8 =? 8)) with false. cbv iota.
  rewrite Hpre, (strtol_hex dm prefix size Hval Hlong).
  cbv beta iota zeta.
  change (negb (w_errno (set_errno 0 (set_incoming rest w)) =? 0)) with false.
  cbv iota. rewrite (to_size_id dm size) by lia.
  destruct (sys_malloc_ok size (set_errno 0 (set_incoming rest w)) Hmem)
    as (p & -> & Hnull & Hfree).
  destruct (p =? NULL) eqn:Ep; [lia |].
  assert (Hint : to_int size = size)
    by (apply to_int_id; change (2 ^ 31) with 2147483648; lia).
  rewrite Hint.
  match goal with |- context [recv_loop _ _ _ _ _ _ _ ?W] =>
    edestruct (recv_loop_truncated dm (S (Z.to_nat size)) p size 0 size 0 W)
      as (w' & Hrun & Hheap & Herr)
  end.
  - unfold INT_MAX, int_bits. change (2 ^ (32 - 1)) with 2147483648. lia.
  - change (2 ^ 31) with 2147483648. lia.
  - lia.
  - simpl w_incoming. rewrite Hrest, length_drop.
    pose proof (first_read_bytes_le (w_incoming w)). lia.
  - lia.
  - exact Hfree.
  - reflexivity.
  - exists w'. split; [| exact Hheap].
    rewrite Hrun. do 3 f_equal. unfold errno_or.
    rewrite Herr; [reflexivity | | lia].
    simpl. rewrite Hro. exact Honly.
Qed.

(** X19: framing round trip.  On a connected client, for a payload of at
    most INT_MAX bytes: when the stream carries the 8
    hexadecimal digits of the payload size and then the payload (the prefix
    at hand for the first [read], the payload in whatever pieces) and the
    buffer can be allocated, [receiveMessage] returns NO_ERROR, [*data_size]
    is the payload size, and [*data] is a new block that holds exactly the
    payload.  An empty payload is such a success. *)
Theorem receiveMessage_roundtrip dm c w prefix (payload : list char) :
  0 <= mSocketFD c ->
  is_hex8 prefix (Z.of_nat (length payload)) ->
  Z.of_nat (length payload) <= INT_MAX ->
  w_malloc_ok w (Z.of_nat (length payload)) = true ->
  data_only (w_incoming w) = true ->
  stream_data (w_incoming w) = prefix ++ payload ->
  8 <= first_read_bytes (w_incoming w) ->
  exists p w',
    receiveMessage dm c w
    = Some (mkRecv NO_ERROR p (Z.of_nat (length payload)), w') /\
    p <> NULL /\
    w_heap w !! p = None /\
    w_heap w' = <[p := Some <$> payload]> (w_heap w) /\
    w_incoming w' = [].
Proof.
  intros Hfd [Hlen Hval] Hmax Hmem Honly Hdata Hfirst.
  pose proof (INT_MAX_le_SIZE_MAX dm) as Hsm.
  assert (Hlong : Z.of_nat (length payload) <= LONG_MAX dm).
  { pose proof (INT_MAX_le_SSIZE_MAX dm) as Hss. unfold SSIZE_MAX in Hss. lia. }
  unfold receiveMessage.
  destruct (mSocketFD c <? 0) eqn:Efd; [lia |].
  destruct (first_read_full dm w Hfirst) as (rest & -> & Hrest & Hro).
  cbv beta iota zeta. change (negb (to_int 8 =? 8)) with false. cbv iota.
  rewrite Hdata in Hrest |- *.
  rewrite take_app_length' by (symmetry; exact Hlen).
  rewrite drop_app_length' in Hrest by (symmetry; exact Hlen).
  rewrite (strtol_hex dm prefix _ Hval Hlong).
  cbv beta iota zeta.
  change (negb (w_errno (set_errno 0 (set_incoming rest w)) =? 0)) with false.
  cbv iota. rewrite (to_size_id dm (Z.of_nat (length payload))) by lia.
  destruct (sys_malloc_ok _ (set_errno 0 (set_incoming rest w)) Hmem)
    as (p & -> & Hnull & Hfree).
  destruct (p =? NULL) eqn:Ep; [lia |].
  rewrite to_int_id by (change (2 ^ 31) with 2147483648; lia).
  rewrite Nat2Z.id.
  exists p.
  destruct payload as [| x payload'] eqn:Epl.
  - (* nothing to read: the loop is left at once *)
    apply stream_data_nil in Hrest; [| rewrite Hro; exact Honly]. subst rest.
    rewrite recv_loop_unfold.
    assert (E0 : forall W, w_incoming W = [] -> sys_read dm (to_size dm 0) W = (0, [], W)).
    { intros W HW. unfold sys_read. rewrite HW. destruct dm; reflexivity. }
    change (Z.of_nat (length (@nil char))) with 0.
    rewrite E0 by reflexivity. cbv beta iota zeta.
    change (to_int 0 >? 0) with false. cbv iota.
    assert (Ez : (to_size dm 0 =? 0) = true) by (destruct dm; reflexivity).
    rewrite Ez. simpl negb. cbv iota.
    eexists. split; [reflexivity |].
    split; [exact Hnull |]. split; [exact Hfree |].
    split; [| reflexivity].
    simpl. rewrite alter_insert_eq. reflexivity.
  - rewrite <- Epl in *.
    assert (Hpos : (0 < length payload)%nat) by (rewrite Epl; simpl; lia).
    match goal with |- context [recv_loop _ _ _ _ _ _ _ ?W] =>
      destruct (recv_loop_complete dm (S (length payload)) p payload 0%nat W (w_heap w))
        as (w' & Hrun & Hheap & _ & Hin)
    end.
    + exact Hmax.
    + exact Hpos.
    + lia.
    + simpl. rewrite Hro. exact Honly.
    + simpl. exact Hrest.
    + simpl. rewrite Nat.sub_0_r. reflexivity.
    + simpl Z.of_nat in Hrun. rewrite Z.sub_0_r in Hrun.
      exists w'. split; [exact Hrun |].
      split; [exact Hnull |]. split; [exact Hfree |].
      split; [exact Hheap | exact Hin].
Qed.

Lemma receiveMessage_roundtrip_witness :
  exists p w',
    receiveMessage ILP32 client3
      (world0 (chunk (lit "00000005ab") ++ chunk (lit "c") ++ chunk (lit "de")))
    = Some (mkRecv NO_ERROR p 5, w') /\
    p <> NULL /\
    w_heap (world0 (chunk (lit "00000005ab") ++ chunk (lit "c") ++ chunk (lit "de"))) !! p
      = None /\
    w_heap w' = <[p := Some <$> lit "abcde"]>
                  (w_heap (world0 (chunk (lit "00000005ab") ++ chunk (lit "c")
                                     ++ chunk (lit "de")))) /\
    w_incoming w' = [].
Proof.
  apply (receiveMessage_roundtrip ILP32 client3
           (world0 (chunk (lit "00000005ab") ++ chunk (lit "c") ++ chunk (lit "de")))
           (lit "00000005") (lit "abcde")).
  - simpl. lia.
  - split; reflexivity.
  - vm_compute. discriminate.
  - reflexivity.
  - reflexivity.
  - reflexivity.
  - vm_compute. discriminate.
Defined.

(** The boundary sizes of the round trip: 0, 1, 65535 and INT_MAX are
    within it, with the prefix the service writes for them. *)
Lemma hex8_examples :
  hex8 0 = lit "00000000" /\ hex8 1 = lit "00000001" /\
  hex8 65535 = lit "0000ffff" /\ hex8 INT_MAX = lit "7fffffff" /\
  hex8 2147483648 = lit "80000000".
Proof. repeat split; vm_compute; reflexivity. Qed.

(** The prefix is read by a single [read]: when only a part of it has
    arrived, that call comes back short and the reply is given up, though
    the rest of the stream holds it whole. *)
Lemma receiveMessage_split_prefix dm :
  exists w',
    receiveMessage dm client3 (world0 (chunk (lit "0000") ++ chunk (lit "0003abc")))
    = Some (mkRecv EIO NULL 0, w').
Proof. eexists. destruct dm; vm_compute; reflexivity. Qed.

(** With the prefix [80000000] the conversion leaves the range of a 32-bit
    [long] and the call returns EIO before it reads any payload; with a
    64-bit [long] the size no longer fits the [int] that counts the bytes
    left, [read] fails on the count with EFAULT, the block is freed and the
    call returns EFAULT.  What follows the prefix has no part in either. *)
Lemma receiveMessage_prefix_80000000 (rest : list char) :
  (exists w', receiveMessage ILP32 client3 (world0 (chunk (lit "80000000" ++ rest)))
              = Some (mkRecv EIO NULL 0, w')) /\
  (exists w', receiveMessage LP64 client3 (world0 (chunk (lit "80000000" ++ rest)))
              = Some (mkRecv EFAULT NULL 0, w')).
Proof.
  split.
  - eexists. reflexivity.
  - eexists. unfold receiveMessage. simpl mSocketFD.
    change (3 <? 0) with false. cbv iota.
    reflexivity.
Qed.

(** C5: the round trip fails from 2^31 bytes on.  A payload of 2^31 bytes
    behind its prefix [80000000], a size of 8 hexadecimal digits, is not
    returned under either data model: with a 32-bit [long] the size is
    refused as invalid (EIO), with a 64-bit [long] the [int] that counts the
    bytes left is negative and the first [read] fails (EFAULT). *)
Lemma receiveMessage_roundtrip_fails_at_2G :
  is_hex8 (lit "80000000") (Z.of_nat (length payload_2G)) /\
  Z.of_nat (length payload_2G) < 2 ^ 32 /\
  (exists w', receiveMessage ILP32 client3 (world0 (chunk (lit "80000000" ++ payload_2G)))
              = Some (mkRecv EIO NULL 0, w')) /\
  (exists w', receiveMessage LP64 client3 (world0 (chunk (lit "80000000" ++ payload_2G)))
              = Some (mkRecv EFAULT NULL 0, w')).
Proof.
  assert (Hlen : Z.of_nat (length payload_2G) = 2147483648).
  { unfold payload_2G. rewrite length_replicate, Z2Nat.id; [reflexivity | discriminate]. }
  rewrite Hlen.
  split; [split; reflexivity |].
  split; [reflexivity |].
  exact (receiveMessage_prefix_80000000 payload_2G).
Qed.

(** ** An unparsable prefix *)

(** C2: a prefix that is no hexadecimal number is not refused.  [strtol]
    converts the digits it finds in front and sets errno only when the value
    leaves the range of [long], so [zzzzzzzz] is taken for size 0 and
    [0000001g] for size 1, and [receiveMessage] returns NO_ERROR with a
    payload of that size. *)
Theorem receiveMessage_accepts_unparsable_prefix :
  hex_value (lit "zzzzzzzz") = None /\
  hex_value (lit "0000001g") = None /\
  forall dm,
    (exists p w',
       receiveMessage dm client3 (world0 (chunk (lit "zzzzzzzz")))
       = Some (mkRecv NO_ERROR p 0, w') /\ p <> NULL) /\
    (exists p w',
       receiveMessage dm client3 (world0 (chunk (lit "0000001gA")))
       = Some (mkRecv NO_ERROR p 1, w') /\
       w_heap w' !! p = Some [Some "A"%char]).
Proof.
  split; [reflexivity |]. split; [reflexivity |].
  intros dm. split.
  - exists 1, (mkWorld 0 {[3]} [] [] {[1 := []]} (fun _ => true)).
    split; [destruct dm; vm_compute; reflexivity | discriminate].
  - eexists _, _. split; [destruct dm; vm_compute; reflexivity |].
    vm_compute. reflexivity.
Qed.

(** * Further properties *)

(** ** The descriptor over the life of a client *)

Lemma gset_add_remove (x : Z) (X : gset Z) : x ∉ X -> ({[x]} ∪ X) ∖ {[x]} = X.
Proof.
  intros Hx. apply set_eq. intros y.
  rewrite elem_of_difference, elem_of_union, elem_of_singleton.
  split.
  - intros [[-> | Hy] Hne]; [contradiction | exact Hy].
  - intros Hy. split; [right; exact Hy |]. intros ->. contradiction.
Qed.

(** The three ways [connectClient] leaves a client that was not connected. *)
Lemma connectClient_cases env port c w st c1 w1 :
  mSocketFD c < 0 ->
  connectClient env port c w = (st, c1, w1) ->
  c1 = mkAicClient (socket_ret env) /\
  ((socket_ret env < 0 /\ w_open w1 = w_open w) \/
   (0 <= socket_ret env /\ w_open w1 = {[socket_ret env]} ∪ w_open w)).
Proof.
  intros Hc. unfold connectClient, sys_socket, sys_connect.
  destruct (mSocketFD c >=? 0) eqn:E; [lia |].
  destruct (socket_ret env <? 0) eqn:Es.
  - simpl. rewrite ?Es. intros Heq; injection Heq as <- <- <-. split; [reflexivity |].
    left. split; [lia | reflexivity].
  - simpl. rewrite ?Es. destruct (connect_ret env <? 0) eqn:Ec; simpl; rewrite ?Ec;
      intros Heq; injection Heq as <- <- <-;
      (split; [reflexivity |]); right; (split; [lia | reflexivity]).
Qed.

(** X1: Whatever [socket] and [connect] answer, a [connectClient] on a new
    client followed by [disconnectClient] or by the destructor leaves the
    descriptor table as it was before: the descriptor taken is given back,
    also when [connect] failed. *)
Theorem connect_then_release_restores_descriptors env port w :
  (0 <= socket_ret env -> socket_ret env ∉ w_open w) ->
  w_open (snd (disconnectClient (snd (fst (connectClient env port AicClient_new w)))
                 (snd (connectClient env port AicClient_new w))))
  = w_open w /\
  w_open (AicClient_destroy (snd (fst (connectClient env port AicClient_new w)))
            (snd (connectClient env port AicClient_new w)))
  = w_open w.
Proof.
  intros Hfresh.
  destruct (connectClient env port AicClient_new w) as [[st c1] w1] eqn:Hconn.
  destruct (connectClient_cases env port AicClient_new w st c1 w1
              ltac:(simpl; lia) Hconn)
    as (-> & [[Hs Hopen] | [Hs Hopen]]); simpl;
    unfold disconnectClient, AicClient_destroy; simpl mSocketFD.
  - destruct (socket_ret env >=? 0) eqn:Es'; [lia |]. split; exact Hopen.
  - destruct (socket_ret env >=? 0) eqn:Es'; [| lia]. simpl.
    assert (Hclose : w_open (sys_close (socket_ret env) w1) = w_open w).
    { unfold sys_close.
      destruct (decide (socket_ret env ∈ w_open w1)) as [Hin | Hout]; simpl.
      - rewrite Hopen. apply gset_add_remove, Hfresh, Hs.
      - exfalso. apply Hout. rewrite Hopen.
        apply elem_of_union_l, elem_of_singleton. reflexivity. }
    split; exact Hclose.
Qed.

Lemma connect_then_release_restores_descriptors_witness :
  w_open (snd (disconnectClient
                 (snd (fst (connectClient (mkNetEnv 4 0 (-1) 111) 5555 AicClient_new
                              (world0 []))))
                 (snd (connectClient (mkNetEnv 4 0 (-1) 111) 5555 AicClient_new
                         (world0 [])))))
  = w_open (world0 []) /\
  w_open (AicClient_destroy
            (snd (fst (connectClient (mkNetEnv 4 0 (-1) 111) 5555 AicClient_new
                         (world0 []))))
            (snd (connectClient (mkNetEnv 4 0 (-1) 111) 5555 AicClient_new (world0 []))))
  = w_open (world0 []).
Proof.
  apply connect_then_release_restores_descriptors.
  simpl. intros _. rewrite elem_of_singleton. discriminate.
Defined.

(** X2: [connectClient] and [disconnectClient] keep the handle of the client
    on an open descriptor, or unset; and the destructor after a
    [disconnectClient] finds nothing to close: no descriptor is closed
    twice. *)
Theorem handle_open_preserved env port c w :
  handle_open c w ->
  handle_open (snd (fst (connectClient env port c w))) (snd (connectClient env port c w)) /\
  handle_open (fst (disconnectClient c w)) (snd (disconnectClient c w)) /\
  AicClient_destroy (fst (disconnectClient c w)) (snd (disconnectClient c w))
  = snd (disconnectClient c w).
Proof.
  intros Hinv. unfold handle_open in *. split; [| split].
  - destruct (Z.ltb_spec (mSocketFD c) 0) as [Hneg | Hpos].
    + destruct (connectClient env port c w) as [[st c1] w1] eqn:Hconn.
      destruct (connectClient_cases env port c w st c1 w1 Hneg Hconn)
        as (-> & [[Hs Hopen] | [Hs Hopen]]); simpl; [lia |].
      intros _. rewrite Hopen. apply elem_of_union_l, elem_of_singleton. reflexivity.
    + unfold connectClient. destruct (mSocketFD c >=? 0) eqn:E; [exact Hinv | lia].
  - unfold disconnectClient. destruct (mSocketFD c >=? 0) eqn:E; simpl; [lia | exact Hinv].
  - unfold disconnectClient, AicClient_destroy.
    destruct (mSocketFD c >=? 0) eqn:E; simpl; [reflexivity | rewrite E; reflexivity].
Qed.

Lemma handle_open_preserved_witness :
  handle_open (snd (fst (connectClient (mkNetEnv 4 0 0 0) 5555 AicClient_new (world0 []))))
    (snd (connectClient (mkNetEnv 4 0 0 0) 5555 AicClient_new (world0 []))).
Proof.
  apply (proj1 (handle_open_preserved (mkNetEnv 4 0 0 0) 5555 AicClient_new (world0 [])
                  ltac:(unfold handle_open; simpl; lia))).
Defined.

(** ** sendMessage *)

(** X3: On a connected client, for a message of at most INT_MAX bytes,
    [sendMessage] returns NO_ERROR exactly when [send] took the whole
    message; a short write is an error like a failed one, and the status is
    then [errno ? errno : EIO]. *)
Theorem sendMessage_ok_iff_whole dm env c data data_size w :
  0 <= mSocketFD c ->
  0 <= data_size <= INT_MAX ->
  -1 <= send_ret env <= data_size ->
  (fst (fst (sendMessage dm env c data data_size w)) = NO_ERROR
   <-> send_ret env = data_size) /\
  (send_ret env <> data_size ->
   fst (fst (sendMessage dm env c data data_size w))
   = errno_or (snd (sendMessage dm env c data data_size w)) EIO).
Proof.
  intros Hfd Hsize Hret.
  pose proof (INT_MAX_le_SIZE_MAX dm) as Hsm.
  assert (Hi : INT_MAX = 2147483647) by reflexivity.
  unfold sendMessage, sys_send.
  destruct (mSocketFD c <? 0) eqn:Efd; [lia |].
  destruct (send_ret env <? 0) eqn:Er.
  - assert (Hm1 : send_ret env = -1) by lia. rewrite Hm1.
    cbv beta iota zeta. change (to_int (-1)) with (-1).
    assert (Hbig : to_size dm (-1) > SSIZE_MAX dm)
      by (apply to_size_negative; change (2 ^ 31) with 2147483648; lia).
    pose proof (INT_MAX_le_SSIZE_MAX dm) as Hss.
    destruct (to_size dm (-1) =? data_size) eqn:E; [lia |].
    simpl. split; [| reflexivity].
    split; [| lia]. intros H. exfalso. revert H. apply errno_or_nonzero. discriminate.
  - cbv beta iota zeta.
    rewrite to_int_id by (change (2 ^ 31) with 2147483648; lia).
    rewrite to_size_id by lia.
    destruct (send_ret env =? data_size) eqn:E; simpl.
    + split; [split; [lia | reflexivity] | lia].
    + split; [| reflexivity].
      split; [| lia]. intros H. exfalso. revert H. apply errno_or_nonzero. discriminate.
Qed.

Lemma sendMessage_ok_iff_whole_witness :
  fst (fst (sendMessage ILP32 (mkSendEnv 3 0) client3 (lit "stop" ++ [ascii_of_N 0]) 5
              (world0 [])))
  = errno_or (snd (sendMessage ILP32 (mkSendEnv 3 0) client3 (lit "stop" ++ [ascii_of_N 0]) 5
                     (world0 []))) EIO.
Proof.
  apply (proj2 (sendMessage_ok_iff_whole ILP32 (mkSendEnv 3 0) client3
                  (lit "stop" ++ [ascii_of_N 0]) 5 (world0 [])
                  ltac:(simpl; lia) ltac:(vm_compute; split; discriminate)
                  ltac:(simpl; lia))).
  simpl. lia.
Defined.

(** ** queryFrame: bounds, and what a failure leaves behind *)

(** X14: With buffers as large as the sizes given for them, [queryFrame] leaves
    each buffer with the length it had, whatever the reply and the status:
    no copy goes past the end of a buffer, and none reads past the end of
    the reply (a copy that fell short of the reply would shorten the
    buffer). *)
Theorem queryFrame_buffers_keep_length dm q vframe pframe vframe_size pframe_size :
  reply_wf dm q ->
  0 <= vframe_size <= SIZE_MAX dm ->
  0 <= pframe_size <= SIZE_MAX dm ->
  (forall vbuf, vframe = Some vbuf -> vframe_size <= Z.of_nat (length vbuf)) ->
  (forall pbuf, pframe = Some pbuf -> pframe_size <= Z.of_nat (length pbuf)) ->
  length <$> fr_vframe (queryFrame dm vframe pframe vframe_size pframe_size q)
    = length <$> vframe /\
  length <$> fr_pframe (queryFrame dm vframe pframe vframe_size pframe_size q)
    = length <$> pframe.
Proof.
  intros [Hlen Hmax] Hv Hp Hvcap Hpcap.
  assert (Hsz : 0 <= mReplyDataSize q) by lia.
  assert (Hcopy : forall (dst src : list char) n,
            0 <= n <= Z.of_nat (length src) -> n <= Z.of_nat (length dst) ->
            length (memcpy dst src n) = length dst).
  { intros dst src n Hsrc Hdst. unfold memcpy.
    rewrite length_app, length_take, length_drop. lia. }
  unfold queryFrame.
  destruct (negb (getCompletionStatus q =? NO_ERROR)); [split; reflexivity |].
  destruct vframe as [vbuf |], pframe as [pbuf |];
    try specialize (Hvcap _ eq_refl); try specialize (Hpcap _ eq_refl);
    destruct (vframe_size =? 0) eqn:Ev; destruct (pframe_size =? 0) eqn:Ep;
    simpl negb; cbv iota beta; frame_sizes dm;
    repeat match goal with
    | |- context [?a >=? ?b] => destruct (Z.geb_spec a b); cbv iota beta;
                               frame_sizes dm
    end;
    simpl; split; try reflexivity; f_equal; apply Hcopy;
    rewrite ?length_drop; lia.
Qed.

Lemma queryFrame_buffers_keep_length_witness :
  length <$> fr_vframe (queryFrame ILP32 (Some (lit "....")) (Some (lit "-----")) 3 2
                          (mkQuery 0 true 0 (lit "abcde") 5))
    = length <$> Some (lit "....") /\
  length <$> fr_pframe (queryFrame ILP32 (Some (lit "....")) (Some (lit "-----")) 3 2
                          (mkQuery 0 true 0 (lit "abcde") 5))
    = length <$> Some (lit "-----").
Proof.
  apply (queryFrame_buffers_keep_length ILP32 (mkQuery 0 true 0 (lit "abcde") 5)
           (Some (lit "....")) (Some (lit "-----")) 3 2).
  - split; simpl; [reflexivity | vm_compute; discriminate].
  - vm_compute; split; discriminate.
  - vm_compute; split; discriminate.
  - intros vbuf [= <-]. vm_compute. discriminate.
  - intros pbuf [= <-]. vm_compute. discriminate.
Defined.

(** X15: The two segments are not taken together: when the reply holds the video
    frame but not the preview frame, [queryFrame] returns EINVAL after it
    has put the new frame in the video buffer. *)
Theorem queryFrame_video_copied_before_preview_fails dm q vbuf pbuf vframe_size pframe_size :
  getCompletionStatus q = NO_ERROR ->
  reply_wf dm q ->
  0 < vframe_size <= mReplyDataSize q ->
  0 < pframe_size <= SIZE_MAX dm ->
  mReplyDataSize q < vframe_size + pframe_size ->
  fr_status (queryFrame dm (Some vbuf) (Some pbuf) vframe_size pframe_size q) = EINVAL /\
  fr_vframe (queryFrame dm (Some vbuf) (Some pbuf) vframe_size pframe_size q)
  = Some (take (Z.to_nat vframe_size) (mReplyData q) ++ drop (Z.to_nat vframe_size) vbuf) /\
  fr_pframe (queryFrame dm (Some vbuf) (Some pbuf) vframe_size pframe_size q) = Some pbuf.
Proof.
  intros Hres [Hlen Hmax] Hv Hp Hshort.
  unfold queryFrame, memcpy. rewrite Hres. simpl negb at 1. cbv iota.
  destruct (vframe_size =? 0) eqn:Ev; [lia |].
  destruct (pframe_size =? 0) eqn:Ep; [lia |].
  simpl negb. cbv iota beta. frame_sizes dm.
  destruct (Z.geb_spec (mReplyDataSize q) vframe_size); [| lia].
  cbv iota beta. frame_sizes dm.
  destruct (Z.geb_spec (mReplyDataSize q - vframe_size) pframe_size); [lia |].
  simpl. auto.
Qed.

Lemma queryFrame_video_copied_before_preview_fails_witness :
  fr_status (queryFrame ILP32 (Some (lit "....")) (Some (lit "-----")) 3 2
               (mkQuery 0 true 0 (lit "abcd") 4)) = EINVAL /\
  fr_vframe (queryFrame ILP32 (Some (lit "....")) (Some (lit "-----")) 3 2
               (mkQuery 0 true 0 (lit "abcd") 4))
  = Some (take (Z.to_nat 3) (lit "abcd") ++ drop (Z.to_nat 3) (lit "....")) /\
  fr_pframe (queryFrame ILP32 (Some (lit "....")) (Some (lit "-----")) 3 2
               (mkQuery 0 true 0 (lit "abcd") 4)) = Some (lit "-----").
Proof.
  apply (queryFrame_video_copied_before_preview_fails ILP32
           (mkQuery 0 true 0 (lit "abcd") 4) (lit "....") (lit "-----") 3 2).
  - reflexivity.
  - split; simpl; [reflexivity | vm_compute; discriminate].
  - simpl. lia.
  - vm_compute. split; [reflexivity | discriminate].
  - simpl. lia.
Defined.

(** ** queryInfo: what it allocates *)

(** X16: Whenever [queryInfo] returns, either the heap is as it was (and the
    caller's pointer is untouched, or set to NULL with the status ENOMEM),
    or the status is NO_ERROR and the pointer holds the address of the one
    block that is new. *)
Theorem queryInfo_allocates_only_on_success dm p_info_string q w st p' w' :
  queryInfo dm p_info_string q w = Returned (st, p', w') ->
  (w_heap w' = w_heap w /\
   (p' = p_info_string \/ (st = ENOMEM /\ p' = Some NULL))) \/
  (st = NO_ERROR /\
   exists addr blk,
     p' = Some addr /\ addr <> NULL /\ w_heap w !! addr = None /\
     w_heap w' = <[addr := blk]> (w_heap w)).
Proof.
  unfold queryInfo.
  destruct (negb (doQuery_ret q =? 0) || negb (isQuerySucceeded q)).
  { intros [= <- <- <-]. left. split; [reflexivity | left; reflexivity]. }
  destruct (mReplyDataSize q =? 0).
  { intros [= <- <- <-]. left. split; [reflexivity | left; reflexivity]. }
  destruct (w_malloc_ok w (size_add dm (mReplyDataSize q) 1)) eqn:Hok.
  - destruct (sys_malloc_ok _ _ Hok) as (p & -> & Hnull & Hfree).
    destruct p_info_string as [old |]; [| intros Hu; discriminate Hu].
    destruct (p =? NULL) eqn:Ep; [unfold NULL in *; lia |].
    destruct (negb (has_zero _)); [intros Hu; discriminate Hu |].
    destruct (snprintf _ _ _) as [s |]; [| intros Hu; discriminate Hu].
    intros [= <- <- <-]. right. split; [reflexivity |].
    eexists p, _. split; [reflexivity |]. split; [exact Hnull |].
    split; [exact Hfree |]. simpl. apply alter_insert_eq.
  - unfold sys_malloc. rewrite Hok.
    destruct p_info_string as [old |]; [| intros Hu; discriminate Hu].
    change (NULL =? NULL) with true. cbv iota.
    intros [= <- <- <-]. left. split; [reflexivity |]. right. split; reflexivity.
Qed.

Lemma queryInfo_allocates_only_on_success_witness :
  (w_heap (world0 []) = w_heap (world0 []) /\
   (Some 7 = Some 7 \/ (EINVAL = ENOMEM /\ Some 7 = Some NULL))) \/
  (EINVAL = NO_ERROR /\
   exists addr blk,
     Some 7 = Some addr /\ addr <> NULL /\ w_heap (world0 []) !! addr = None /\
     w_heap (world0 []) = <[addr := blk]> (w_heap (world0 []))).
Proof.
  apply (queryInfo_allocates_only_on_success ILP32 (Some 7) (mkQuery 0 true 0 [] 0)
           (world0 []) EINVAL (Some 7) (world0 [])).
  reflexivity.
Defined.

Lemma queryInfo_stores_text_witness :
  exists p w',
    queryInfo ILP32 (Some 0) (mkQuery 0 true 0 (lit "name=cam" ++ [ascii_of_N 0]) 9)
      (world0 [])
    = Returned (NO_ERROR, Some p, w') /\
    p <> NULL /\ w_heap (world0 []) !! p = None /\
    w_heap w' !! p
    = Some ((Some <$> cstr (lit "name=cam" ++ [ascii_of_N 0]) ++ [ascii_of_N 0])
              ++ replicate (length (lit "name=cam" ++ [ascii_of_N 0])
                            - length (cstr (lit "name=cam" ++ [ascii_of_N 0]))) None).
Proof.
  apply (queryInfo_stores_text ILP32 0
           (mkQuery 0 true 0 (lit "name=cam" ++ [ascii_of_N 0]) 9) (world0 [])).
  - reflexivity.
  - reflexivity.
  - split; simpl; [reflexivity | vm_compute; discriminate].
  - vm_compute. split; reflexivity.
  - reflexivity.
  - reflexivity.
Defined.

Lemma queryInfo_reads_past_reply_witness :
  queryInfo ILP32 (Some 0) (mkQuery 0 true 0 (lit "name=cam") 8) (world0 [])
  = Undefined OverRead.
Proof.
  apply (queryInfo_reads_past_reply ILP32 0 (mkQuery 0 true 0 (lit "name=cam") 8)
           (world0 [])).
  - reflexivity.
  - reflexivity.
  - split; simpl; [reflexivity | vm_compute; discriminate].
  - vm_compute. split; reflexivity.
  - reflexivity.
  - reflexivity.
Defined.

Lemma queryStart_query_str_layout_witness :
  queryStart_query_str 842094169 1280 720
  = Some (lit "start dim=" ++ itoa 1280 ++ lit "x" ++ itoa 720
            ++ lit " pix=" ++ itoa (to_int 842094169)) /\
  (842094169 <= INT_MAX ->
     itoa (to_int 842094169) = utoa 842094169 /\
     dec_value (utoa 842094169) = 842094169).
Proof.
  apply queryStart_query_str_layout; vm_compute; split;
    first [discriminate | reflexivity].
Defined.

(** ** receiveMessage: every outcome *)

(** What any [read] does to the world: the bytes it returns are the next
    bytes of the stream, and nothing but the stream and errno changes. *)
Lemma sys_read_spec dm count w r got w1 :
  sys_read dm count w = (r, got, w1) ->
  stream_data (w_incoming w) = got ++ stream_data (w_incoming w1) /\
  w_heap w1 = w_heap w /\
  w_malloc_ok w1 = w_malloc_ok w /\
  ((r = -1 /\ got = []) \/
   (count <= SSIZE_MAX dm /\ r = Z.of_nat (length got) /\
    (0 <= count -> Z.of_nat (length got) <= count))).
Proof.
  unfold sys_read.
  destruct (count >? SSIZE_MAX dm) eqn:E.
  { intros Heq; injection Heq as <- <- <-. repeat split; auto. }
  destruct (w_incoming w) as [| [b bs | e] s] eqn:Es.
  - intros Heq; injection Heq as <- <- <-. rewrite Es.
    repeat split; auto. right. repeat split; simpl; lia.
  - intros Heq; injection Heq as <- <- <-. simpl w_incoming.
    repeat split; auto.
    + change (stream_data (RdData b bs :: s)) with ((b :: bs) ++ stream_data s).
      rewrite <- (take_drop (Z.to_nat count) (b :: bs)) at 1.
      rewrite <- app_assoc. f_equal.
      destruct (drop (Z.to_nat count) (b :: bs)) as [| b' bs']; reflexivity.
    + right. split; [lia |]. split; [reflexivity |].
      intros Hc. rewrite length_take. lia.
  - intros Heq; injection Heq as <- <- <-. repeat split; auto.
Qed.

(** The loop either hands the block over with NO_ERROR, or frees it and
    returns an error with NULL and 0. *)
Lemma recv_loop_buffer dm fuel :
  forall data payload_size payload_read payload_left ptr_off w h0 blk r w',
  w_heap w = <[data := blk]> h0 ->
  h0 !! data = None ->
  recv_loop dm fuel data payload_size payload_read payload_left ptr_off w = Some (r, w') ->
  (rr_status r <> NO_ERROR /\ rr_data r = NULL /\ rr_data_size r = 0 /\ w_heap w' = h0) \/
  (rr_status r = NO_ERROR /\ rr_data r = data /\
   exists blk', w_heap w' = <[data := blk']> h0).
Proof.
  induction fuel as [| fuel IH];
    intros data payload_size payload_read payload_left ptr_off w h0 blk r w'
           Hheap Hfree; [discriminate |].
  rewrite recv_loop_unfold.
  destruct (sys_read dm (to_size dm payload_left) w) as [[n got] w1] eqn:Er.
  destruct (sys_read_spec _ _ _ _ _ _ Er) as (_ & Hh1 & _).
  cbv beta iota zeta.
  assert (Hw2 : w_heap (mem_write data ptr_off got w1)
                = <[data := write_at (Z.to_nat ptr_off) got blk]> h0).
  { simpl. rewrite Hh1, Hheap. apply alter_insert_eq. }
  destruct (to_int n >? 0).
  - destruct (to_size dm (to_int (payload_read + to_int n)) =? payload_size).
    + intros Heq; injection Heq as <- <-. right.
      split; [reflexivity |]. split; [reflexivity |]. eexists. exact Hw2.
    + apply (IH _ _ _ _ _ _ h0 _ _ _ Hw2 Hfree).
  - destruct (negb (to_size dm payload_read =? payload_size)).
    + intros Heq; injection Heq as <- <-. left.
      split; [apply errno_or_nonzero; discriminate |].
      split; [reflexivity |]. split; [reflexivity |].
      simpl. rewrite Hh1, Hheap. apply heap_free_written, Hfree.
    + intros Heq; injection Heq as <- <-. right.
      split; [reflexivity |]. split; [reflexivity |]. eexists. exact Hw2.
Qed.

(** X4: Whatever the client, the stream and the state of memory: when
    [receiveMessage] returns an error, [*data] is NULL, [*data_size] is 0
    and the heap is as it was before the call; when it returns NO_ERROR,
    [*data] is the address, not NULL, of the one block that is new.  The
    caller owes a [free] exactly when the status is NO_ERROR. *)
Theorem receiveMessage_buffer_iff_success dm c w r w' :
  receiveMessage dm c w = Some (r, w') ->
  (rr_status r <> NO_ERROR /\ rr_data r = NULL /\ rr_data_size r = 0
   /\ w_heap w' = w_heap w) \/
  (rr_status r = NO_ERROR /\ rr_data r <> NULL /\ w_heap w !! rr_data r = None /\
   exists blk, w_heap w' = <[rr_data r := blk]> (w_heap w)).
Proof.
  unfold receiveMessage.
  destruct (mSocketFD c <? 0).
  { intros Heq; injection Heq as <- <-. left. repeat split; discriminate. }
  destruct (sys_read dm 8 w) as [[n got] w1] eqn:Er.
  destruct (sys_read_spec _ _ _ _ _ _ Er) as (_ & Hh1 & Hm1 & _).
  destruct (negb (to_int n =? 8)).
  { intros Heq; injection Heq as <- <-. left.
    split; [apply errno_or_nonzero; discriminate |]. repeat split; auto. }
  destruct (strtol dm got 16) as [v erange].
  set (w3 := if erange then set_errno ERANGE (set_errno 0 w1) else set_errno 0 w1).
  assert (Hh3 : w_heap w3 = w_heap w) by (unfold w3; destruct erange; exact Hh1).
  assert (Hm3 : w_malloc_ok w3 = w_malloc_ok w1) by (unfold w3; destruct erange; reflexivity).
  destruct (negb (w_errno w3 =? 0)).
  { intros Heq; injection Heq as <- <-. left. repeat split; auto; discriminate. }
  destruct (w_malloc_ok w3 (to_size dm v)) eqn:Hok.
  - destruct (sys_malloc_ok _ _ Hok) as (p & -> & Hnull & Hfree).
    destruct (p =? NULL) eqn:Ep; [unfold NULL in *; lia |].
    rewrite Hh3 in Hfree.
    intros Hloop.
    assert (Hh4 : w_heap (set_heap (<[p := replicate (Z.to_nat (to_size dm v)) None]>
                                      (w_heap w3)) w3)
                  = <[p := replicate (Z.to_nat (to_size dm v)) None]> (w_heap w))
      by (simpl; rewrite Hh3; reflexivity).
    destruct (recv_loop_buffer dm _ _ _ _ _ _ _ (w_heap w) _ _ _ Hh4 Hfree Hloop)
      as [(Hst & Hd & Hs & Hh) | (Hst & Hd & blk' & Hh)].
    + left. auto.
    + right. rewrite Hd. split; [exact Hst |]. split; [exact Hnull |].
      split; [exact Hfree |]. exists blk'. exact Hh.
  - unfold sys_malloc. rewrite Hok. change (NULL =? NULL) with true. cbv iota.
    intros Heq; injection Heq as <- <-. left.
    repeat split; auto; discriminate.
Qed.

Lemma receiveMessage_buffer_iff_success_witness :
  (EIO <> NO_ERROR /\ NULL = NULL /\ 0 = 0
   /\ w_heap (set_incoming [] (world0 [])) = w_heap (world0 (chunk (lit "0000")))) \/
  (EIO = NO_ERROR /\ NULL <> NULL /\ w_heap (world0 (chunk (lit "0000"))) !! NULL = None /\
   exists blk, w_heap (set_incoming [] (world0 []))
               = <[NULL := blk]> (w_heap (world0 (chunk (lit "0000"))))).
Proof.
  apply (receiveMessage_buffer_iff_success ILP32 client3 (world0 (chunk (lit "0000")))
           (mkRecv EIO NULL 0) (set_incoming [] (world0 []))).
  reflexivity.
Defined.

(** Storing a piece behind the bytes stored so far, in a block of [n]
    bytes. *)
Lemma write_at_done (done piece : list char) n :
  write_at (length done) piece ((Some <$> done) ++ replicate (n - length done) None)
  = (Some <$> (done ++ piece)) ++ replicate (n - length (done ++ piece)) None.
Proof.
  unfold write_at.
  assert (Hlen : length (Some <$> done) = length done) by apply length_fmap.
  rewrite take_app_length' by (symmetry; exact Hlen).
  rewrite drop_app_ge by lia. rewrite Hlen.
  replace (length done + length piece - length done)%nat with (length piece) by lia.
  rewrite drop_replicate, fmap_app, <- app_assoc, length_app.
  do 3 f_equal. lia.
Qed.

(** The loop, when it ends with NO_ERROR: the block holds the bytes that
    were stored before and the bytes taken off the stream since, and there
    are as many as the size asked for. *)
Lemma recv_loop_sound dm fuel :
  forall data payload_size (done : list char) payload_left w h0 r w',
  Z.of_nat (length done) <= INT_MAX ->
  - 2 ^ 31 <= payload_left <= INT_MAX ->
  (0 <= payload_left -> Z.of_nat (length done) + payload_left <= INT_MAX) ->
  w_heap w
  = <[data := (Some <$> done) ++ replicate (Z.to_nat payload_size - length done) None]> h0 ->
  recv_loop dm fuel data payload_size (Z.of_nat (length done)) payload_left
    (Z.of_nat (length done)) w = Some (r, w') ->
  rr_status r = NO_ERROR ->
  exists more,
    stream_data (w_incoming w) = more ++ stream_data (w_incoming w') /\
    Z.of_nat (length (done ++ more)) = payload_size /\
    payload_size <= INT_MAX /\
    (rr_data_size r = payload_size \/ (rr_data_size r = 0 /\ more = [])) /\
    rr_data r = data /\
    w_heap w' = <[data := Some <$> (done ++ more)]> h0.
Proof.
  induction fuel as [| fuel IH];
    intros data payload_size done payload_left w h0 r w' Hdone Hleft Hsum Hheap;
    [discriminate |].
  pose proof (INT_MAX_le_SIZE_MAX dm) as Hsm.
  rewrite recv_loop_unfold.
  destruct (sys_read dm (to_size dm payload_left) w) as [[n got] w1] eqn:Er.
  destruct (sys_read_spec _ _ _ _ _ _ Er) as (Hdata & Hh1 & _ & Hn).
  cbv beta iota zeta.
  assert (Hw2 : w_heap (mem_write data (Z.of_nat (length done)) got w1)
                = <[data := (Some <$> (done ++ got))
                              ++ replicate (Z.to_nat payload_size - length (done ++ got))
                                   None]> h0).
  { simpl. rewrite Hh1, Hheap, alter_insert_eq, Nat2Z.id. f_equal. apply write_at_done. }
  assert (Hgot : (n = -1 /\ got = []) \/
                 (0 <= payload_left /\ n = Z.of_nat (length got)
                  /\ Z.of_nat (length got) <= payload_left)).
  { destruct Hn as [Hn | (Hc & Hn & Hle)]; [left; exact Hn | right].
    destruct (Z.ltb_spec payload_left 0) as [Hneg | Hpos].
    - pose proof (to_size_negative dm payload_left ltac:(lia)). lia.
    - rewrite (to_size_id dm payload_left) in Hle by lia. split; [lia |]. split; [exact Hn | lia]. }
  assert (Hfinish : forall r0,
            rr_status r0 = NO_ERROR -> rr_data r0 = data ->
            Z.of_nat (length (done ++ got)) = payload_size ->
            (rr_data_size r0 = payload_size \/ (rr_data_size r0 = 0 /\ got = [])) ->
            exists more,
              stream_data (w_incoming w)
              = more ++ stream_data (w_incoming (mem_write data (Z.of_nat (length done))
                                                   got w1)) /\
              Z.of_nat (length (done ++ more)) = payload_size /\
              payload_size <= INT_MAX /\
              (rr_data_size r0 = payload_size \/ (rr_data_size r0 = 0 /\ more = [])) /\
              rr_data r0 = data /\
              w_heap (mem_write data (Z.of_nat (length done)) got w1)
              = <[data := Some <$> (done ++ more)]> h0).
  { intros r0 Hst Hd Hsize Hds. exists got.
    split; [exact Hdata |]. split; [exact Hsize |].
    split.
    { rewrite <- Hsize, length_app.
      destruct Hgot as [[_ ->] | (Hpl & _ & Hle)]; simpl; lia. }
    split; [exact Hds |].
    split; [exact Hd |].
    rewrite Hw2. replace (Z.to_nat payload_size) with (length (done ++ got)) by lia.
    rewrite Nat.sub_diag. simpl. rewrite app_nil_r. reflexivity. }
  destruct (to_int n >? 0) eqn:Epos.
  - destruct Hgot as [[-> _] | (Hpl & -> & Hle)];
      [change (to_int (-1)) with (-1) in Epos; lia |].
    rewrite (to_int_id (Z.of_nat (length got))) in * by lia.
    rewrite !to_int_id by lia.
    rewrite (to_size_id dm (Z.of_nat (length done) + Z.of_nat (length got))) by lia.
    destruct (Z.of_nat (length done) + Z.of_nat (length got) =? payload_size) eqn:Ecmp.
    + apply Z.eqb_eq in Ecmp.
      intros Heq Hst; injection Heq as <- <-.
      apply Hfinish; auto. rewrite length_app. lia.
    + replace (Z.of_nat (length done) + Z.of_nat (length got))
        with (Z.of_nat (length (done ++ got))) by (rewrite length_app; lia).
      intros Hloop Hst.
      destruct (IH data payload_size (done ++ got)
                  (payload_left - Z.of_nat (length got))
                  (mem_write data (Z.of_nat (length done)) got w1) h0 r w')
        as (more & Hd' & Hsize & Hmax & Hds & Hrd & Hh');
        try (rewrite length_app; lia); try lia; auto.
      exists (got ++ more).
      simpl w_incoming in Hd'. rewrite Hdata, Hd', <- !app_assoc.
      split; [reflexivity |]. rewrite <- app_assoc in Hsize, Hh'.
      split; [exact Hsize |]. split; [exact Hmax |].
      split; [| split; [exact Hrd | exact Hh']].
      destruct Hds as [Hds | [Hds ->]]; [left; exact Hds |].
      (* the next pass leaves [*data_size] at 0 only when the size is the
         number of bytes read so far, which the test has just excluded *)
      exfalso. apply Z.eqb_neq in Ecmp.
      rewrite app_nil_r, length_app in Hsize. lia.
  - assert (Hnil : got = []).
    { destruct Hgot as [[_ ->] | (Hpl & -> & Hle)]; [reflexivity |].
      rewrite to_int_id in Epos by lia.
      apply length_zero_iff_nil. lia. }
    destruct (negb (to_size dm (Z.of_nat (length done)) =? payload_size)) eqn:Ecmp.
    + intros Heq Hst; injection Heq as <- <-. exfalso. revert Hst.
      apply errno_or_nonzero. discriminate.
    + rewrite to_size_id in Ecmp by lia.
      apply negb_false_iff, Z.eqb_eq in Ecmp.
      intros Heq Hst; injection Heq as <- <-.
      apply Hfinish; auto.
      rewrite Hnil, app_nil_r. exact Ecmp.
Qed.

(** X5: Whatever the stream: when [receiveMessage] returns NO_ERROR, the 8
    bytes it took first and the bytes it returns are the next bytes of the
    stream, in order, and what follows them is still to be read; the size
    it reports is the number of bytes returned, it is the number [strtol]
    made of the prefix, and it is at most INT_MAX; and the block at [*data]
    holds exactly those bytes. *)
Theorem receiveMessage_sound dm c w r w' :
  receiveMessage dm c w = Some (r, w') ->
  rr_status r = NO_ERROR ->
  exists prefix payload,
    stream_data (w_incoming w) = prefix ++ payload ++ stream_data (w_incoming w') /\
    length prefix = 8%nat /\
    to_size dm (fst (strtol dm prefix 16)) = Z.of_nat (length payload) /\
    rr_data_size r = Z.of_nat (length payload) /\
    rr_data_size r <= INT_MAX /\
    w_heap w' !! rr_data r = Some (Some <$> payload).
Proof.
  unfold receiveMessage.
  destruct (mSocketFD c <? 0).
  { intros Heq Hst; injection Heq as <- <-. discriminate Hst. }
  destruct (sys_read dm 8 w) as [[n got] w1] eqn:Er.
  destruct (sys_read_spec _ _ _ _ _ _ Er) as (Hdata & Hh1 & Hm1 & Hn).
  destruct (negb (to_int n =? 8)) eqn:E8.
  { intros Heq Hst; injection Heq as <- <-. exfalso. revert Hst.
    apply errno_or_nonzero. discriminate. }
  apply negb_false_iff, Z.eqb_eq in E8.
  assert (Hlen : length got = 8%nat).
  { destruct Hn as [[-> _] | (_ & -> & Hle)]; [discriminate E8 |].
    specialize (Hle ltac:(lia)).
    rewrite to_int_id in E8
      by (unfold INT_MAX, int_bits; change (2 ^ 31) with 2147483648;
          change (2 ^ (32 - 1)) with 2147483648; lia).
    lia. }
  destruct (strtol dm got 16) as [v erange] eqn:Est.
  destruct erange.
  { simpl. intros Heq Hst; injection Heq as <- <-. discriminate Hst. }
  change (negb (w_errno (set_errno 0 w1) =? 0)) with false. cbv iota.
  destruct (w_malloc_ok (set_errno 0 w1) (to_size dm v)) eqn:Hok.
  - destruct (sys_malloc_ok _ _ Hok) as (p & -> & Hnull & Hfree).
    destruct (p =? NULL) eqn:Ep; [unfold NULL in *; lia |].
    intros Hloop Hst.
    pose proof (to_int_range (to_size dm v)) as Hleft.
    match type of Hloop with
    | recv_loop _ ?F _ _ _ _ _ ?W = _ =>
      destruct (recv_loop_sound dm F p (to_size dm v) [] (to_int (to_size dm v)) W
                  (w_heap w1) r w') as (more & Hd' & Hsize & Hmax & Hds & Hrd & Hh');
        try exact Hloop; try exact Hst; try exact Hleft
    end.
    + simpl. unfold INT_MAX, int_bits. change (2 ^ (32 - 1)) with 2147483648. lia.
    + simpl. lia.
    + simpl. rewrite Nat.sub_0_r. reflexivity.
    + exists got, more. simpl in Hd', Hsize, Hh'.
      split; [rewrite Hdata, Hd'; reflexivity |].
      split; [exact Hlen |].
      rewrite Est. simpl fst.
      split; [symmetry; exact Hsize |].
      assert (Hrs : rr_data_size r = Z.of_nat (length more)).
      { destruct Hds as [Hds | [Hds ->]]; [lia |]. simpl in *. lia. }
      split; [exact Hrs |]. split; [lia |].
      rewrite Hrd, Hh'. apply lookup_insert_eq.
  - unfold sys_malloc. rewrite Hok. change (NULL =? NULL) with true. cbv iota.
    intros Heq Hst; injection Heq as <- <-. discriminate Hst.
Qed.

Lemma receiveMessage_sound_witness :
  exists prefix payload,
    stream_data (w_incoming (world0 (chunk (lit "00000002abcd"))))
    = prefix ++ payload
      ++ stream_data (w_incoming
           (mkWorld 0 {[3]} [] (chunk (lit "cd")) {[1 := [Some "a"%char; Some "b"%char]]}
              (fun _ => true))) /\
    length prefix = 8%nat /\
    to_size ILP32 (fst (strtol ILP32 prefix 16)) = Z.of_nat (length payload) /\
    rr_data_size (mkRecv NO_ERROR 1 2) = Z.of_nat (length payload) /\
    rr_data_size (mkRecv NO_ERROR 1 2) <= INT_MAX /\
    w_heap (mkWorld 0 {[3]} [] (chunk (lit "cd")) {[1 := [Some "a"%char; Some "b"%char]]}
              (fun _ => true)) !! rr_data (mkRecv NO_ERROR 1 2)
    = Some (Some <$> payload).
Proof.
  apply (receiveMessage_sound ILP32 client3 (world0 (chunk (lit "00000002abcd")))).
  - vm_compute. reflexivity.
  - reflexivity.
Defined.

(** X7: When the buffer cannot be allocated the call returns ENOMEM with NULL
    and 0, the heap as it was, and only the prefix read: the payload is
    still on the stream, in front of the next reply. *)
Theorem receiveMessage_no_memory dm c w :
  0 <= mSocketFD c ->
  8 <= first_read_bytes (w_incoming w) ->
  snd (strtol dm (take 8 (stream_data (w_incoming w))) 16) = false ->
  w_malloc_ok w (to_size dm (fst (strtol dm (take 8 (stream_data (w_incoming w))) 16)))
    = false ->
  exists w',
    receiveMessage dm c w = Some (mkRecv ENOMEM NULL 0, w') /\
    w_heap w' = w_heap w /\
    stream_data (w_incoming w') = drop 8 (stream_data (w_incoming w)).
Proof.
  intros Hfd Hfirst Hrange Hmem. unfold receiveMessage.
  destruct (mSocketFD c <? 0) eqn:Efd; [lia |].
  destruct (first_read_full dm w Hfirst) as (rest & -> & Hrest & _).
  cbv beta iota zeta. change (negb (to_int 8 =? 8)) with false. cbv iota.
  destruct (strtol dm (take 8 (stream_data (w_incoming w))) 16) as [v erange].
  simpl in Hrange, Hmem. subst erange.
  change (negb (w_errno (set_errno 0 (set_incoming rest w)) =? 0)) with false.
  cbv iota. unfold sys_malloc. simpl w_malloc_ok. rewrite Hmem.
  change (NULL =? NULL) with true. cbv iota.
  eexists. split; [reflexivity |]. split; [reflexivity | exact Hrest].
Qed.

Lemma receiveMessage_no_memory_witness :
  exists w',
    receiveMessage ILP32 client3
      (mkWorld 0 {[3]} [] (chunk (lit "00000003abc")) ∅ (fun n => n <? 2))
    = Some (mkRecv ENOMEM NULL 0, w') /\
    w_heap w'
    = w_heap (mkWorld 0 {[3]} [] (chunk (lit "00000003abc")) ∅ (fun n => n <? 2)) /\
    stream_data (w_incoming w')
    = drop 8 (stream_data (w_incoming
                (mkWorld 0 {[3]} [] (chunk (lit "00000003abc")) ∅ (fun n => n <? 2)))).
Proof.
  apply receiveMessage_no_memory.
  - simpl. lia.
  - vm_compute. discriminate.
  - reflexivity.
  - reflexivity.
Defined.

(** ** receiveMessage: replies one after the other *)

Lemma set_incoming_same w : set_incoming (w_incoming w) w = w.
Proof. destruct w; reflexivity. Qed.

Lemma sys_read_chunk dm count (l : list char) w :
  0 <= count <= SSIZE_MAX dm ->
  w_incoming w = chunk l ->
  sys_read dm count w
  = (Z.of_nat (length (take (Z.to_nat count) l)), take (Z.to_nat count) l,
     set_incoming (chunk (drop (Z.to_nat count) l)) w).
Proof.
  intros Hc Hw. unfold sys_read.
  destruct (count >? SSIZE_MAX dm) eqn:E; [lia |]. rewrite Hw.
  destruct l as [| b bs].
  - rewrite take_nil, drop_nil. simpl.
    replace (set_incoming [] w) with w; [reflexivity |].
    rewrite <- (set_incoming_same w) at 1. rewrite Hw. reflexivity.
  - reflexivity.
Qed.

(** A reply that has arrived whole, with whatever follows it: the call
    returns its payload, and leaves on the stream exactly what follows. *)
Lemma receiveMessage_chunk dm c w prefix (payload tail : list char) :
  0 <= mSocketFD c ->
  is_hex8 prefix (Z.of_nat (length payload)) ->
  Z.of_nat (length payload) <= INT_MAX ->
  w_malloc_ok w (Z.of_nat (length payload)) = true ->
  w_incoming w = chunk (prefix ++ payload ++ tail) ->
  exists p,
    p <> NULL /\ w_heap w !! p = None /\
    receiveMessage dm c w
    = Some (mkRecv NO_ERROR p (Z.of_nat (length payload)),
            mkWorld 0 (w_open w) (w_opts w) (chunk tail)
              (<[p := Some <$> payload]> (w_heap w)) (w_malloc_ok w)).
Proof.
  intros Hfd [Hlen Hval] Hmax Hmem Hin.
  pose proof (INT_MAX_le_SIZE_MAX dm) as Hsm.
  pose proof (INT_MAX_le_SSIZE_MAX dm) as Hss.
  assert (Hi : INT_MAX = 2147483647) by reflexivity.
  assert (Hlong : Z.of_nat (length payload) <= LONG_MAX dm)
    by (unfold SSIZE_MAX in Hss; lia).
  unfold receiveMessage.
  destruct (mSocketFD c <? 0) eqn:Efd; [lia |].
  rewrite (sys_read_chunk dm 8 (prefix ++ payload ++ tail) w) by (auto; lia).
  change (Z.to_nat 8) with 8%nat.
  rewrite take_app_length', drop_app_length' by (symmetry; exact Hlen).
  rewrite Hlen. change (Z.of_nat 8) with 8.
  cbv beta iota zeta. change (negb (to_int 8 =? 8)) with false. cbv iota.
  rewrite (strtol_hex dm prefix _ Hval Hlong). cbv beta iota zeta.
  change (negb (w_errno (set_errno 0 (set_incoming (chunk (payload ++ tail)) w)) =? 0))
    with false.
  cbv iota. rewrite (to_size_id dm (Z.of_nat (length payload))) by lia.
  destruct (sys_malloc_ok _ (set_errno 0 (set_incoming (chunk (payload ++ tail)) w)) Hmem)
    as (p & -> & Hnull & Hfree).
  destruct (p =? NULL) eqn:Ep; [unfold NULL in *; lia |].
  exists p. split; [exact Hnull |]. split; [exact Hfree |].
  rewrite to_int_id by (change (2 ^ 31) with 2147483648; lia).
  rewrite Nat2Z.id, recv_loop_unfold.
  rewrite (to_size_id dm (Z.of_nat (length payload))) by lia.
  rewrite (sys_read_chunk dm (Z.of_nat (length payload)) (payload ++ tail))
    by (try reflexivity; lia).
  rewrite Nat2Z.id, take_app_length, drop_app_length.
  cbv beta iota zeta.
  rewrite to_int_id by (change (2 ^ 31) with 2147483648; lia).
  destruct payload as [| x payload'] eqn:Epl.
  - simpl length. change (Z.of_nat 0 >? 0) with false. cbv iota.
    assert (Ez : (to_size dm 0 =? Z.of_nat 0) = true) by (destruct dm; reflexivity).
    rewrite Ez. simpl negb. cbv iota.
    do 2 f_equal. unfold mem_write, set_heap, set_incoming, set_errno. simpl.
    f_equal. rewrite alter_insert_eq. reflexivity.
  - rewrite <- Epl in *.
    assert (Hpos : 0 < Z.of_nat (length payload)) by (rewrite Epl; simpl; lia).
    destruct (Z.of_nat (length payload) >? 0) eqn:Eg; [| lia].
    rewrite Z.add_0_l.
    rewrite to_int_id by (change (2 ^ 31) with 2147483648; lia).
    rewrite (to_size_id dm (Z.of_nat (length payload))) by lia.
    rewrite Z.eqb_refl.
    do 2 f_equal. unfold mem_write, set_heap, set_incoming, set_errno. simpl.
    f_equal. rewrite alter_insert_eq. f_equal.
    unfold write_at. simpl. rewrite drop_replicate, Nat.sub_diag. simpl.
    apply app_nil_r.
Qed.

(** X6: Two replies that have arrived one behind the other are returned by
    two calls, in order, each in a block of its own; the first block is
    untouched by the second call, and what follows the second reply is left
    on the stream. *)
Theorem receiveMessage_two_replies dm c w prefix1 payload1 prefix2 payload2
    (tail : list char) :
  0 <= mSocketFD c ->
  is_hex8 prefix1 (Z.of_nat (length payload1)) ->
  is_hex8 prefix2 (Z.of_nat (length payload2)) ->
  Z.of_nat (length payload1) <= INT_MAX ->
  Z.of_nat (length payload2) <= INT_MAX ->
  w_malloc_ok w (Z.of_nat (length payload1)) = true ->
  w_malloc_ok w (Z.of_nat (length payload2)) = true ->
  w_incoming w = chunk (prefix1 ++ payload1 ++ prefix2 ++ payload2 ++ tail) ->
  exists p1 w1 p2 w2,
    receiveMessage dm c w = Some (mkRecv NO_ERROR p1 (Z.of_nat (length payload1)), w1) /\
    receiveMessage dm c w1 = Some (mkRecv NO_ERROR p2 (Z.of_nat (length payload2)), w2) /\
    p1 <> p2 /\
    w_heap w2 !! p1 = Some (Some <$> payload1) /\
    w_heap w2 !! p2 = Some (Some <$> payload2) /\
    w_incoming w2 = chunk tail.
Proof.
  intros Hfd Hp1 Hp2 Hm1 Hm2 Hok1 Hok2 Hin.
  destruct (receiveMessage_chunk dm c w prefix1 payload1 (prefix2 ++ payload2 ++ tail)
              Hfd Hp1 Hm1 Hok1 Hin) as (p1 & Hn1 & Hf1 & Hr1).
  set (w1 := mkWorld 0 (w_open w) (w_opts w) (chunk (prefix2 ++ payload2 ++ tail))
               (<[p1 := Some <$> payload1]> (w_heap w)) (w_malloc_ok w)) in *.
  destruct (receiveMessage_chunk dm c w1 prefix2 payload2 tail Hfd Hp2 Hm2 Hok2 eq_refl)
    as (p2 & Hn2 & Hf2 & Hr2).
  eexists p1, w1, p2, _. rewrite Hr1, Hr2.
  simpl in Hf2.
  assert (Hne : p1 <> p2).
  { intros ->. rewrite lookup_insert_eq in Hf2. discriminate Hf2. }
  split; [reflexivity |]. split; [reflexivity |]. split; [exact Hne |].
  simpl. split; [| split; [apply lookup_insert_eq | reflexivity]].
  rewrite lookup_insert_ne by congruence. apply lookup_insert_eq.
Qed.

Lemma receiveMessage_two_replies_witness :
  exists p1 w1 p2 w2,
    receiveMessage ILP32 client3 (world0 (chunk (lit "00000002ok00000003ko!")))
    = Some (mkRecv NO_ERROR p1 (Z.of_nat (length (lit "ok"))), w1) /\
    receiveMessage ILP32 client3 w1
    = Some (mkRecv NO_ERROR p2 (Z.of_nat (length (lit "ko!"))), w2) /\
    p1 <> p2 /\
    w_heap w2 !! p1 = Some (Some <$> lit "ok") /\
    w_heap w2 !! p2 = Some (Some <$> lit "ko!") /\
    w_incoming w2 = chunk [].
Proof.
  apply (receiveMessage_two_replies ILP32 client3
           (world0 (chunk (lit "00000002ok00000003ko!")))
           (lit "00000002") (lit "ok") (lit "00000003") (lit "ko!") []).
  - simpl. lia.
  - split; reflexivity.
  - split; reflexivity.
  - vm_compute. discriminate.
  - vm_compute. discriminate.
  - reflexivity.
  - reflexivity.
  - reflexivity.
Defined.

(** ** receiveMessage: a size beyond the range of [long] *)

(** Past the range of [long], [strtol] reads on without converting. *)
Lemma strtol_loop_saturated dm neg base cutoff cutlim l acc any erange :
  any < 0 ->
  strtol_loop dm neg base cutoff cutlim l acc any erange = (acc, erange).
Proof.
  intros Hany. induction l as [| c l IH]; simpl; [reflexivity |].
  destruct (digit_of c) as [d |]; [| reflexivity].
  destruct (d >=? base); [reflexivity |].
  destruct (any <? 0) eqn:E; [exact IH | lia].
Qed.

Lemma strtol_loop_hex_over dm l acc any v :
  0 <= acc <= LONG_MAX dm -> 0 <= any ->
  hex_value_from acc l = Some v -> LONG_MAX dm < v ->
  strtol_loop dm false 16 (Z.quot (LONG_MAX dm) 16) (Z.rem (LONG_MAX dm) 16) l acc any false
  = (LONG_MAX dm, true).
Proof.
  destruct (LONG_MAX_cut dm) as (Hmax & Hlim & Hcut). rewrite Hlim.
  revert acc any. induction l as [| c l IH]; intros acc any Hacc Hany; simpl.
  - intros [= <-] Hover. lia.
  - destruct (hex_digit_value c) as [d |] eqn:Ed; [| discriminate].
    destruct (hex_digit_value_spec _ _ Ed) as (Hd & -> & _).
    intros Hv Hover.
    destruct (d >=? 16) eqn:E1; [lia |].
    destruct (any <? 0) eqn:E2; [lia |].
    destruct (Z.leb_spec (acc * 16 + d) (LONG_MAX dm)) as [Hfit | Hout].
    + destruct (acc >? Z.quot (LONG_MAX dm) 16) eqn:E3; [lia |].
      destruct (acc =? Z.quot (LONG_MAX dm) 16) eqn:E4;
        destruct (d >? 15) eqn:E5; simpl; try lia; apply IH; auto; lia.
    + assert (Hsat : (acc >? Z.quot (LONG_MAX dm) 16)
                     || ((acc =? Z.quot (LONG_MAX dm) 16) && (d >? 15)) = true).
      { destruct (acc >? Z.quot (LONG_MAX dm) 16) eqn:E3; [reflexivity |].
        destruct (acc =? Z.quot (LONG_MAX dm) 16) eqn:E4;
          destruct (d >? 15) eqn:E5; simpl; lia. }
      rewrite Hsat. apply strtol_loop_saturated. lia.
Qed.

(** On hexadecimal digits that denote more than LONG_MAX, [strtol] returns
    LONG_MAX and sets errno to ERANGE. *)
Lemma strtol_hex_over dm l v :
  hex_value l = Some v -> LONG_MAX dm < v -> strtol dm l 16 = (LONG_MAX dm, true).
Proof.
  unfold hex_value. intros Hv Hover.
  assert (H0 : 0 <= LONG_MAX dm) by (destruct dm; vm_compute; discriminate).
  destruct l as [| c l].
  - injection Hv as <-. lia.
  - pose proof Hv as Hv'. simpl in Hv'.
    destruct (hex_digit_value c) as [d |] eqn:Ed; [| discriminate].
    destruct (hex_digit_value_spec _ _ Ed) as (Hd & _ & Hsp & Hm & Hp & _).
    rewrite <- (strtol_loop_hex_over dm (c :: l) 0 0 v) by (auto; lia).
    unfold strtol. simpl skip_space. rewrite Hsp.
    destruct (code c =? 45) eqn:E1; [lia |].
    destruct (code c =? 43) eqn:E2; [lia |].
    destruct l as [| x l]; [reflexivity |].
    simpl in Hv'. destruct (hex_digit_value x) as [dx |] eqn:Ex; [| discriminate].
    destruct (hex_digit_value_spec _ _ Ex) as (_ & _ & _ & _ & _ & Hx1 & Hx2).
    destruct (code x =? 120) eqn:E3; [lia |].
    destruct (code x =? 88) eqn:E4; [lia |].
    change (false || false) with false. rewrite andb_false_r. reflexivity.
Qed.

(** X8: A prefix of 8 hexadecimal digits that denotes more than LONG_MAX (from
    [80000000] on where [long] has 32 bits) is refused with EIO before
    anything is allocated; the payload stays on the stream. *)
Theorem receiveMessage_size_beyond_long dm c w size :
  0 <= mSocketFD c ->
  8 <= first_read_bytes (w_incoming w) ->
  is_hex8 (take 8 (stream_data (w_incoming w))) size ->
  LONG_MAX dm < size ->
  exists w',
    receiveMessage dm c w = Some (mkRecv EIO NULL 0, w') /\
    w_heap w' = w_heap w /\
    stream_data (w_incoming w') = drop 8 (stream_data (w_incoming w)).
Proof.
  intros Hfd Hfirst [_ Hval] Hover. unfold receiveMessage.
  destruct (mSocketFD c <? 0) eqn:Efd; [lia |].
  destruct (first_read_full dm w Hfirst) as (rest & -> & Hrest & _).
  cbv beta iota zeta. change (negb (to_int 8 =? 8)) with false. cbv iota.
  rewrite (strtol_hex_over dm _ size Hval Hover).
  cbv beta iota zeta.
  change (negb (w_errno (set_errno ERANGE (set_errno 0 (set_incoming rest w))) =? 0))
    with true.
  cbv iota. eexists. split; [reflexivity |]. split; [reflexivity | exact Hrest].
Qed.

Lemma receiveMessage_size_beyond_long_witness :
  exists w',
    receiveMessage ILP32 client3 (world0 (chunk (lit "fffffffeabc")))
    = Some (mkRecv EIO NULL 0, w') /\
    w_heap w' = w_heap (world0 (chunk (lit "fffffffeabc"))) /\
    stream_data (w_incoming w')
    = drop 8 (stream_data (w_incoming (world0 (chunk (lit "fffffffeabc"))))).
Proof.
  apply (receiveMessage_size_beyond_long ILP32 client3
           (world0 (chunk (lit "fffffffeabc"))) 4294967294).
  - simpl. lia.
  - vm_compute. discriminate.
  - split; reflexivity.
  - reflexivity.
Defined.

Lemma receiveMessage_payload_cut_EIO_witness :
  exists w',
    receiveMessage ILP32 client3 (world0 (chunk (lit "00000005ab") ++ chunk (lit "c")))
    = Some (mkRecv EIO NULL 0, w') /\
    w_heap w' = w_heap (world0 (chunk (lit "00000005ab") ++ chunk (lit "c"))).
Proof.
  apply (receiveMessage_payload_cut_EIO ILP32 client3
           (world0 (chunk (lit "00000005ab") ++ chunk (lit "c"))) (lit "00000005") 5).
  - simpl. lia.
  - split; reflexivity.
  - vm_compute. discriminate.
  - reflexivity.
  - reflexivity.
  - vm_compute. discriminate.
  - reflexivity.
  - vm_compute. reflexivity.
Defined.

(** ** doQuery *)

(** What [sendMessage] returns on a connected client, and what it leaves
    alone. *)
Lemma sendMessage_cases dm env c data data_size w :
  0 <= mSocketFD c ->
  0 <= data_size <= INT_MAX ->
  -1 <= send_ret env <= data_size ->
  exists sent w1,
    sendMessage dm env c data data_size w
    = (if send_ret env =? data_size then NO_ERROR else errno_or w1 EIO, sent, w1) /\
    w_incoming w1 = w_incoming w /\
    w_heap w1 = w_heap w /\
    (send_ret env = data_size -> w1 = w /\ sent = take (Z.to_nat data_size) data).
Proof.
  intros Hfd Hsize Hret.
  pose proof (INT_MAX_le_SIZE_MAX dm) as Hsm.
  assert (Hi : INT_MAX = 2147483647) by reflexivity.
  unfold sendMessage, sys_send.
  destruct (mSocketFD c <? 0) eqn:Efd; [lia |].
  destruct (send_ret env <? 0) eqn:Er.
  - assert (Hm1 : send_ret env = -1) by lia. rewrite Hm1.
    cbv beta iota zeta. change (to_int (-1)) with (-1).
    assert (Hbig : to_size dm (-1) > SSIZE_MAX dm)
      by (apply to_size_negative; change (2 ^ 31) with 2147483648; lia).
    pose proof (INT_MAX_le_SSIZE_MAX dm) as Hss.
    destruct (to_size dm (-1) =? data_size) eqn:E; [lia |].
    destruct (-1 =? data_size) eqn:E'; [lia |].
    simpl. eexists _, _. split; [reflexivity |]. repeat split; lia.
  - cbv beta iota zeta.
    rewrite to_int_id by (change (2 ^ 31) with 2147483648; lia).
    rewrite to_size_id by lia.
    destruct (send_ret env =? data_size) eqn:E; simpl;
      eexists _, _; (split; [reflexivity |]); repeat split; try lia.
    apply Z.eqb_eq in E. rewrite E. apply take_ge. rewrite length_take. lia.
Qed.

(** X11: A query that was not built, or a client that is not connected: nothing
    goes out, nothing is read, the world is untouched.  An invalid query is
    returned as it is with its own status, without [completeQuery];
    otherwise [completeQuery] is given EINVAL. *)
Theorem doQuery_without_io dm completeQuery env c query w :
  mQueryDeliveryStatus query <> NO_ERROR \/ mSocketFD c < 0 ->
  exists r,
    doQuery dm completeQuery env c query w = Some (r, w) /\
    dq_sent r = [] /\
    (mQueryDeliveryStatus query <> NO_ERROR ->
       dq_status r = mQueryDeliveryStatus query /\ dq_query r = query) /\
    (mQueryDeliveryStatus query = NO_ERROR ->
       dq_status r = fst (completeQuery EINVAL query) /\
       dq_query r = snd (completeQuery EINVAL query)).
Proof.
  intros Hcase. unfold doQuery.
  destruct (mQueryDeliveryStatus query =? NO_ERROR) eqn:Eq; simpl negb; cbv iota.
  - apply Z.eqb_eq in Eq. destruct Hcase as [Hbad | Hfd]; [contradiction |].
    unfold sendMessage. destruct (mSocketFD c <? 0) eqn:Efd; [| lia].
    cbv beta iota zeta. change (EINVAL =? NO_ERROR) with false. cbv iota.
    destruct (completeQuery EINVAL query) as [res1 query1].
    eexists. split; [reflexivity |]. split; [reflexivity |].
    split; [contradiction |]. intros _. split; reflexivity.
  - apply Z.eqb_neq in Eq.
    eexists. split; [reflexivity |]. split; [reflexivity |].
    split; [intros _; split; reflexivity | contradiction].
Qed.

Lemma doQuery_without_io_witness :
  exists r,
    doQuery ILP32 (fun st q => (st, q)) (mkSendEnv 5 0) AicClient_new
      (mkQueryState (lit "stop") NO_ERROR NULL 0) (world0 [])
    = Some (r, world0 []) /\
    dq_sent r = [] /\
    (mQueryDeliveryStatus (mkQueryState (lit "stop") NO_ERROR NULL 0) <> NO_ERROR ->
       dq_status r = mQueryDeliveryStatus (mkQueryState (lit "stop") NO_ERROR NULL 0) /\
       dq_query r = mkQueryState (lit "stop") NO_ERROR NULL 0) /\
    (mQueryDeliveryStatus (mkQueryState (lit "stop") NO_ERROR NULL 0) = NO_ERROR ->
       dq_status r = fst ((fun st q => (st, q)) EINVAL
                            (mkQueryState (lit "stop") NO_ERROR NULL 0)) /\
       dq_query r = snd ((fun (st : status_t) (q : QueryState) => (st, q)) EINVAL
                           (mkQueryState (lit "stop") NO_ERROR NULL 0))).
Proof.
  apply (doQuery_without_io ILP32 (fun st q => (st, q)) (mkSendEnv 5 0) AicClient_new
           (mkQueryState (lit "stop") NO_ERROR NULL 0) (world0 [])).
  right. simpl. lia.
Defined.

(** X12: When [send] does not take the whole command, no reply is read: the
    stream and the heap are as they were, the reply members of the query are
    not set, and [completeQuery] is given the error of the send, which is
    not NO_ERROR. *)
Theorem doQuery_send_failure_reads_nothing dm completeQuery env c query w :
  0 <= mSocketFD c ->
  mQueryDeliveryStatus query = NO_ERROR ->
  Z.of_nat (length (cstr (mQuery query))) + 1 <= INT_MAX ->
  -1 <= send_ret env <= Z.of_nat (length (cstr (mQuery query))) + 1 ->
  send_ret env <> Z.of_nat (length (cstr (mQuery query))) + 1 ->
  exists r w' st,
    doQuery dm completeQuery env c query w = Some (r, w') /\
    st <> NO_ERROR /\ st = errno_or w' EIO /\
    dq_status r = fst (completeQuery st query) /\
    dq_query r = snd (completeQuery st query) /\
    w_incoming w' = w_incoming w /\
    w_heap w' = w_heap w.
Proof.
  intros Hfd Hvalid Hlen Hret Hshort.
  pose proof (INT_MAX_le_SIZE_MAX dm) as Hsm.
  unfold doQuery. rewrite Hvalid. change (negb (NO_ERROR =? NO_ERROR)) with false.
  cbv iota beta zeta.
  unfold size_add. rewrite to_size_id by lia.
  set (msg := cstr (mQuery query) ++ [ascii_of_N 0]).
  set (size := Z.of_nat (length (cstr (mQuery query))) + 1) in *.
  destruct (sendMessage_cases dm env c msg size w Hfd ltac:(lia) Hret)
    as (sent & w1 & -> & Hin & Hh & _).
  destruct (send_ret env =? size) eqn:Ew; [apply Z.eqb_eq in Ew; contradiction |].
  set (res := errno_or w1 EIO).
  assert (Hne : res <> NO_ERROR) by (apply errno_or_nonzero; discriminate).
  destruct (res =? NO_ERROR) eqn:Er; [apply Z.eqb_eq in Er; contradiction |].
  destruct (completeQuery res query) as [res1 query1] eqn:Ec.
  exists (mkDoQuery res1 query1 sent), w1, res.
  split; [reflexivity |]. split; [exact Hne |]. split; [reflexivity |].
  rewrite Ec. simpl. repeat split; assumption.
Qed.

Lemma doQuery_send_failure_reads_nothing_witness :
  exists r w' st,
    doQuery ILP32 (fun st q => (st, q)) (mkSendEnv 3 0) client3
      (mkQueryState (lit "stop") NO_ERROR NULL 0) (world0 (chunk (lit "00000003ok")))
    = Some (r, w') /\
    st <> NO_ERROR /\ st = errno_or w' EIO /\
    dq_status r = fst ((fun (st : status_t) (q : QueryState) => (st, q)) st
                         (mkQueryState (lit "stop") NO_ERROR NULL 0)) /\
    dq_query r = snd ((fun (st : status_t) (q : QueryState) => (st, q)) st
                        (mkQueryState (lit "stop") NO_ERROR NULL 0)) /\
    w_incoming w' = w_incoming (world0 (chunk (lit "00000003ok"))) /\
    w_heap w' = w_heap (world0 (chunk (lit "00000003ok"))).
Proof.
  apply (doQuery_send_failure_reads_nothing ILP32 (fun st q => (st, q)) (mkSendEnv 3 0)
           client3 (mkQueryState (lit "stop") NO_ERROR NULL 0)
           (world0 (chunk (lit "00000003ok")))).
  - simpl. lia.
  - reflexivity.
  - vm_compute. discriminate.
  - simpl. lia.
  - simpl. lia.
Defined.

(** X13: A query on a connected client, with [send] taking the whole command
    and the reply at hand: what goes out is the command and its terminating
    zero, in one piece; the reply is read into a new block, exactly one
    reply is taken off the stream, and [completeQuery] is given NO_ERROR and
    the query with that block and its size as reply. *)
Theorem doQuery_exchange dm completeQuery env c query w prefix (payload tail : list char) :
  0 <= mSocketFD c ->
  mQueryDeliveryStatus query = NO_ERROR ->
  Z.of_nat (length (cstr (mQuery query))) + 1 <= INT_MAX ->
  send_ret env = Z.of_nat (length (cstr (mQuery query))) + 1 ->
  is_hex8 prefix (Z.of_nat (length payload)) ->
  Z.of_nat (length payload) <= INT_MAX ->
  w_malloc_ok w (Z.of_nat (length payload)) = true ->
  w_incoming w = chunk (prefix ++ payload ++ tail) ->
  exists r w' p,
    doQuery dm completeQuery env c query w = Some (r, w') /\
    dq_sent r = cstr (mQuery query) ++ [ascii_of_N 0] /\
    p <> NULL /\ w_heap w !! p = None /\
    w_heap w' = <[p := Some <$> payload]> (w_heap w) /\
    w_incoming w' = chunk tail /\
    dq_status r
    = fst (completeQuery NO_ERROR (set_reply p (Z.of_nat (length payload)) query)) /\
    dq_query r
    = snd (completeQuery NO_ERROR (set_reply p (Z.of_nat (length payload)) query)).
Proof.
  intros Hfd Hvalid Hlen Hret Hpre Hmax Hmem Hin.
  pose proof (INT_MAX_le_SIZE_MAX dm) as Hsm.
  unfold doQuery. rewrite Hvalid. change (negb (NO_ERROR =? NO_ERROR)) with false.
  cbv iota beta zeta.
  unfold size_add. rewrite to_size_id by lia.
  set (msg := cstr (mQuery query) ++ [ascii_of_N 0]).
  set (size := Z.of_nat (length (cstr (mQuery query))) + 1) in *.
  destruct (sendMessage_cases dm env c msg size w Hfd ltac:(lia) ltac:(lia))
    as (sent & w1 & -> & _ & _ & Hwhole).
  destruct (Hwhole Hret) as [-> ->].
  rewrite Hret, Z.eqb_refl. change (NO_ERROR =? NO_ERROR) with true. cbv iota.
  destruct (receiveMessage_chunk dm c w prefix payload tail Hfd Hpre Hmax Hmem Hin)
    as (p & Hnull & Hfree & ->).
  simpl rr_status. simpl rr_data. simpl rr_data_size.
  destruct (completeQuery NO_ERROR (set_reply p (Z.of_nat (length payload)) query))
    as [res1 query1] eqn:Ec.
  eexists _, _, p. split; [reflexivity |]. simpl.
  split.
  { apply take_ge. unfold msg, size. rewrite length_app. simpl. lia. }
  repeat split; auto; rewrite Ec; reflexivity.
Qed.

Lemma doQuery_exchange_witness :
  exists r w' p,
    doQuery ILP32 (fun st q => (st, q)) (mkSendEnv 5 0) client3
      (mkQueryState (lit "stop") NO_ERROR NULL 0)
      (world0 (chunk (lit "00000003ok" ++ [ascii_of_N 0])))
    = Some (r, w') /\
    dq_sent r = cstr (mQuery (mkQueryState (lit "stop") NO_ERROR NULL 0)) ++ [ascii_of_N 0] /\
    p <> NULL /\
    w_heap (world0 (chunk (lit "00000003ok" ++ [ascii_of_N 0]))) !! p = None /\
    w_heap w' = <[p := Some <$> lit "ok" ++ [ascii_of_N 0]]>
                  (w_heap (world0 (chunk (lit "00000003ok" ++ [ascii_of_N 0])))) /\
    w_incoming w' = chunk [] /\
    dq_status r
    = fst ((fun (st : status_t) (q : QueryState) => (st, q)) NO_ERROR
             (set_reply p (Z.of_nat (length (lit "ok" ++ [ascii_of_N 0])))
                (mkQueryState (lit "stop") NO_ERROR NULL 0))) /\
    dq_query r
    = snd ((fun (st : status_t) (q : QueryState) => (st, q)) NO_ERROR
             (set_reply p (Z.of_nat (length (lit "ok" ++ [ascii_of_N 0])))
                (mkQueryState (lit "stop") NO_ERROR NULL 0))).
Proof.
  apply (doQuery_exchange ILP32 (fun st q => (st, q)) (mkSendEnv 5 0) client3
           (mkQueryState (lit "stop") NO_ERROR NULL 0)
           (world0 (chunk (lit "00000003ok" ++ [ascii_of_N 0])))
           (lit "00000003") (lit "ok" ++ [ascii_of_N 0]) []).
  - simpl. lia.
  - reflexivity.
  - vm_compute. discriminate.
  - reflexivity.
  - split; reflexivity.
  - vm_compute. discriminate.
  - reflexivity.
  - reflexivity.
Defined.
